(** * The Pintos thread scheduler (threads/thread.c): priority ready queue,
    alarm-clock sleep queue and deferred destruction of dying threads.

    The C code is embedded as functions of a small state-and-error monad
    over the scheduler's global variables.  A [struct thread *] is the page
    address of the thread; the intrusive [elem] link of a thread is its
    membership in one of the lists of the state. *)

From stdpp Require Import gmap strings list sorting.

#[local] Set Warnings "-clear-no-such-hyp".

Local Open Scope Z_scope.

(** ** threads/thread.h *)

Inductive thread_status :=
  | THREAD_RUNNING
  | THREAD_READY
  | THREAD_BLOCKED
  | THREAD_DYING.

#[global] Instance thread_status_eq_dec : EqDecision thread_status.
Proof. solve_decision. Defined.

Definition tid_t := Z.
Definition TID_ERROR : tid_t := -1.

Definition PRI_MIN : Z := 0.
Definition PRI_DEFAULT : Z := 31.
Definition PRI_MAX : Z := 63.

Definition NULL : Z := 0.

(** The part of [struct intr_frame] that thread.c writes by name: the
    instruction pointer (left at zero by [memset], or the address of
    [kernel_thread]), the two argument registers and the stack pointer.
    The segment selectors and flags it also stores are constants of headers
    outside this file and no property below reads them. *)
Inductive code_ptr := code_zero | code_kernel_thread.

Record intr_frame := mk_intr_frame {
  rip : code_ptr;
  rdi : Z;
  rsi : Z;
  rsp : Z
}.

Record thread := mk_thread {
  tid : tid_t;
  status : thread_status;
  name : string;
  priority : Z;
  wakeup_tick : Z;
  tf : intr_frame;
  magic : Z
}.

Definition THREAD_MAGIC : Z := 0xcd6abf4b.
Definition TIME_SLICE : Z := 4.
Definition PGSIZE : Z := 4096.

(** A page after [memset (t, 0, sizeof *t)]: every field zero, and zero is
    [THREAD_RUNNING] in the enumeration. *)
Definition zero_thread : thread :=
  {| tid := 0; status := THREAD_RUNNING; name := ""; priority := 0;
     wakeup_tick := 0;
     tf := {| rip := code_zero; rdi := 0; rsi := 0; rsp := 0 |};
     magic := 0 |}.

Definition set_tid (v : tid_t) (t : thread) : thread :=
  {| tid := v; status := status t; name := name t; priority := priority t;
     wakeup_tick := wakeup_tick t; tf := tf t; magic := magic t |}.
Definition set_status (v : thread_status) (t : thread) : thread :=
  {| tid := tid t; status := v; name := name t; priority := priority t;
     wakeup_tick := wakeup_tick t; tf := tf t; magic := magic t |}.
Definition set_name (v : string) (t : thread) : thread :=
  {| tid := tid t; status := status t; name := v; priority := priority t;
     wakeup_tick := wakeup_tick t; tf := tf t; magic := magic t |}.
Definition set_priority (v : Z) (t : thread) : thread :=
  {| tid := tid t; status := status t; name := name t; priority := v;
     wakeup_tick := wakeup_tick t; tf := tf t; magic := magic t |}.
Definition set_wakeup_tick (v : Z) (t : thread) : thread :=
  {| tid := tid t; status := status t; name := name t; priority := priority t;
     wakeup_tick := v; tf := tf t; magic := magic t |}.
Definition set_tf (v : intr_frame) (t : thread) : thread :=
  {| tid := tid t; status := status t; name := name t; priority := priority t;
     wakeup_tick := wakeup_tick t; tf := v; magic := magic t |}.
Definition set_magic (v : Z) (t : thread) : thread :=
  {| tid := tid t; status := status t; name := name t; priority := priority t;
     wakeup_tick := wakeup_tick t; tf := tf t; magic := v |}.

(** ** The global state of thread.c and of its collaborators *)

Inductive intr_level := INTR_OFF | INTR_ON.

#[global] Instance intr_level_eq_dec : EqDecision intr_level.
Proof. solve_decision. Defined.

Record sched := mk_sched {
  mem : gmap Z thread;          (* thread pages, by page address *)
  ready_list : list Z;
  sleep_list : list Z;
  idle_thread : Z;
  initial_thread : Z;
  destruction_req : list Z;
  idle_ticks : Z;
  kernel_ticks : Z;
  user_ticks : Z;
  thread_ticks : Z;             (* unsigned *)
  next_tid : tid_t;             (* static local of allocate_tid *)
  running : Z;                  (* pg_round_down (rrsp ()) *)
  level : intr_level;           (* interrupt.c *)
  in_external_intr : bool;      (* interrupt.c *)
  yield_on_return : bool;       (* interrupt.c *)
  free_pages : list Z           (* palloc.c: the pool of free pages *)
}.

Definition with_mem (f : gmap Z thread → gmap Z thread) (s : sched) : sched :=
  {| mem := f (mem s); ready_list := ready_list s; sleep_list := sleep_list s;
     idle_thread := idle_thread s; initial_thread := initial_thread s;
     destruction_req := destruction_req s; idle_ticks := idle_ticks s;
     kernel_ticks := kernel_ticks s; user_ticks := user_ticks s;
     thread_ticks := thread_ticks s; next_tid := next_tid s;
     running := running s; level := level s;
     in_external_intr := in_external_intr s;
     yield_on_return := yield_on_return s; free_pages := free_pages s |}.
Definition with_ready (f : list Z → list Z) (s : sched) : sched :=
  {| mem := mem s; ready_list := f (ready_list s); sleep_list := sleep_list s;
     idle_thread := idle_thread s; initial_thread := initial_thread s;
     destruction_req := destruction_req s; idle_ticks := idle_ticks s;
     kernel_ticks := kernel_ticks s; user_ticks := user_ticks s;
     thread_ticks := thread_ticks s; next_tid := next_tid s;
     running := running s; level := level s;
     in_external_intr := in_external_intr s;
     yield_on_return := yield_on_return s; free_pages := free_pages s |}.
Definition with_sleep (f : list Z → list Z) (s : sched) : sched :=
  {| mem := mem s; ready_list := ready_list s; sleep_list := f (sleep_list s);
     idle_thread := idle_thread s; initial_thread := initial_thread s;
     destruction_req := destruction_req s; idle_ticks := idle_ticks s;
     kernel_ticks := kernel_ticks s; user_ticks := user_ticks s;
     thread_ticks := thread_ticks s; next_tid := next_tid s;
     running := running s; level := level s;
     in_external_intr := in_external_intr s;
     yield_on_return := yield_on_return s; free_pages := free_pages s |}.
Definition with_idle_thread (v : Z) (s : sched) : sched :=
  {| mem := mem s; ready_list := ready_list s; sleep_list := sleep_list s;
     idle_thread := v; initial_thread := initial_thread s;
     destruction_req := destruction_req s; idle_ticks := idle_ticks s;
     kernel_ticks := kernel_ticks s; user_ticks := user_ticks s;
     thread_ticks := thread_ticks s; next_tid := next_tid s;
     running := running s; level := level s;
     in_external_intr := in_external_intr s;
     yield_on_return := yield_on_return s; free_pages := free_pages s |}.
Definition with_initial_thread (v : Z) (s : sched) : sched :=
  {| mem := mem s; ready_list := ready_list s; sleep_list := sleep_list s;
     idle_thread := idle_thread s; initial_thread := v;
     destruction_req := destruction_req s; idle_ticks := idle_ticks s;
     kernel_ticks := kernel_ticks s; user_ticks := user_ticks s;
     thread_ticks := thread_ticks s; next_tid := next_tid s;
     running := running s; level := level s;
     in_external_intr := in_external_intr s;
     yield_on_return := yield_on_return s; free_pages := free_pages s |}.
Definition with_destruction (f : list Z → list Z) (s : sched) : sched :=
  {| mem := mem s; ready_list := ready_list s; sleep_list := sleep_list s;
     idle_thread := idle_thread s; initial_thread := initial_thread s;
     destruction_req := f (destruction_req s); idle_ticks := idle_ticks s;
     kernel_ticks := kernel_ticks s; user_ticks := user_ticks s;
     thread_ticks := thread_ticks s; next_tid := next_tid s;
     running := running s; level := level s;
     in_external_intr := in_external_intr s;
     yield_on_return := yield_on_return s; free_pages := free_pages s |}.
Definition with_idle_ticks (f : Z → Z) (s : sched) : sched :=
  {| mem := mem s; ready_list := ready_list s; sleep_list := sleep_list s;
     idle_thread := idle_thread s; initial_thread := initial_thread s;
     destruction_req := destruction_req s; idle_ticks := f (idle_ticks s);
     kernel_ticks := kernel_ticks s; user_ticks := user_ticks s;
     thread_ticks := thread_ticks s; next_tid := next_tid s;
     running := running s; level := level s;
     in_external_intr := in_external_intr s;
     yield_on_return := yield_on_return s; free_pages := free_pages s |}.
Definition with_kernel_ticks (f : Z → Z) (s : sched) : sched :=
  {| mem := mem s; ready_list := ready_list s; sleep_list := sleep_list s;
     idle_thread := idle_thread s; initial_thread := initial_thread s;
     destruction_req := destruction_req s; idle_ticks := idle_ticks s;
     kernel_ticks := f (kernel_ticks s); user_ticks := user_ticks s;
     thread_ticks := thread_ticks s; next_tid := next_tid s;
     running := running s; level := level s;
     in_external_intr := in_external_intr s;
     yield_on_return := yield_on_return s; free_pages := free_pages s |}.
Definition with_thread_ticks (f : Z → Z) (s : sched) : sched :=
  {| mem := mem s; ready_list := ready_list s; sleep_list := sleep_list s;
     idle_thread := idle_thread s; initial_thread := initial_thread s;
     destruction_req := destruction_req s; idle_ticks := idle_ticks s;
     kernel_ticks := kernel_ticks s; user_ticks := user_ticks s;
     thread_ticks := f (thread_ticks s); next_tid := next_tid s;
     running := running s; level := level s;
     in_external_intr := in_external_intr s;
     yield_on_return := yield_on_return s; free_pages := free_pages s |}.
Definition with_next_tid (f : Z → Z) (s : sched) : sched :=
  {| mem := mem s; ready_list := ready_list s; sleep_list := sleep_list s;
     idle_thread := idle_thread s; initial_thread := initial_thread s;
     destruction_req := destruction_req s; idle_ticks := idle_ticks s;
     kernel_ticks := kernel_ticks s; user_ticks := user_ticks s;
     thread_ticks := thread_ticks s; next_tid := f (next_tid s);
     running := running s; level := level s;
     in_external_intr := in_external_intr s;
     yield_on_return := yield_on_return s; free_pages := free_pages s |}.
Definition with_running (v : Z) (s : sched) : sched :=
  {| mem := mem s; ready_list := ready_list s; sleep_list := sleep_list s;
     idle_thread := idle_thread s; initial_thread := initial_thread s;
     destruction_req := destruction_req s; idle_ticks := idle_ticks s;
     kernel_ticks := kernel_ticks s; user_ticks := user_ticks s;
     thread_ticks := thread_ticks s; next_tid := next_tid s;
     running := v; level := level s;
     in_external_intr := in_external_intr s;
     yield_on_return := yield_on_return s; free_pages := free_pages s |}.
Definition with_level (v : intr_level) (s : sched) : sched :=
  {| mem := mem s; ready_list := ready_list s; sleep_list := sleep_list s;
     idle_thread := idle_thread s; initial_thread := initial_thread s;
     destruction_req := destruction_req s; idle_ticks := idle_ticks s;
     kernel_ticks := kernel_ticks s; user_ticks := user_ticks s;
     thread_ticks := thread_ticks s; next_tid := next_tid s;
     running := running s; level := v;
     in_external_intr := in_external_intr s;
     yield_on_return := yield_on_return s; free_pages := free_pages s |}.
Definition with_in_external_intr (v : bool) (s : sched) : sched :=
  {| mem := mem s; ready_list := ready_list s; sleep_list := sleep_list s;
     idle_thread := idle_thread s; initial_thread := initial_thread s;
     destruction_req := destruction_req s; idle_ticks := idle_ticks s;
     kernel_ticks := kernel_ticks s; user_ticks := user_ticks s;
     thread_ticks := thread_ticks s; next_tid := next_tid s;
     running := running s; level := level s;
     in_external_intr := v;
     yield_on_return := yield_on_return s; free_pages := free_pages s |}.
Definition with_yield_on_return (v : bool) (s : sched) : sched :=
  {| mem := mem s; ready_list := ready_list s; sleep_list := sleep_list s;
     idle_thread := idle_thread s; initial_thread := initial_thread s;
     destruction_req := destruction_req s; idle_ticks := idle_ticks s;
     kernel_ticks := kernel_ticks s; user_ticks := user_ticks s;
     thread_ticks := thread_ticks s; next_tid := next_tid s;
     running := running s; level := level s;
     in_external_intr := in_external_intr s;
     yield_on_return := v; free_pages := free_pages s |}.
Definition with_free (f : list Z → list Z) (s : sched) : sched :=
  {| mem := mem s; ready_list := ready_list s; sleep_list := sleep_list s;
     idle_thread := idle_thread s; initial_thread := initial_thread s;
     destruction_req := destruction_req s; idle_ticks := idle_ticks s;
     kernel_ticks := kernel_ticks s; user_ticks := user_ticks s;
     thread_ticks := thread_ticks s; next_tid := next_tid s;
     running := running s; level := level s;
     in_external_intr := in_external_intr s;
     yield_on_return := yield_on_return s; free_pages := f (free_pages s) |}.

(** [*t]: the thread stored in page [t]; a page that holds no thread reads
    as zeros. *)
Definition page (m : gmap Z thread) (t : Z) : thread :=
  default zero_thread (m !! t).

Abbreviation thread_at s t := (page (mem s) t).

(** [t->field = v], as a change of the page [t]. *)
Definition write_thread (t : Z) (f : thread → thread) (s : sched) : sched :=
  with_mem (λ m, <[t := f (page m t)]> m) s.

Abbreviation prio s t := (priority (thread_at s t)).
Abbreviation wake s t := (wakeup_tick (thread_at s t)).
Abbreviation stat s t := (status (thread_at s t)).

(** ** A state monad with failure

    [Panic] is a failed [ASSERT] or [NOT_REACHED]; [OutOfFuel] is a loop
    that was given fewer iterations than it needs. *)

Inductive result (A : Type) :=
  | Ok (a : A)
  | Panic (msg : string)
  | OutOfFuel.
Arguments Ok {A} a.
Arguments Panic {A} msg.
Arguments OutOfFuel {A}.

Definition M (A : Type) : Type := sched → result (A * sched).

Definition ret {A} (a : A) : M A := λ s, Ok (a, s).

Definition bind {A B} (m : M A) (k : A → M B) : M B :=
  λ s, match m s with
       | Ok (a, s') => k a s'
       | Panic msg => Panic msg
       | OutOfFuel => OutOfFuel
       end.

Declare Scope sched_scope.
Notation "x <- m ;; k" := (bind m (λ x, k))
  (at level 20, m at level 99, k at level 200, only parsing) : sched_scope.
Notation "m ;; k" := (bind m (λ _, k))
  (at level 100, k at level 200, only parsing, right associativity)
  : sched_scope.
Open Scope sched_scope.

Definition gets {A} (f : sched → A) : M A := λ s, Ok (f s, s).
Definition modify (f : sched → sched) : M unit := λ s, Ok (tt, f s).
Definition panic {A} (msg : string) : M A := λ _, Panic msg.
Definition ASSERT (b : bool) (msg : string) : M unit :=
  if b then ret tt else panic msg.
Definition out_of_fuel {A} : M A := λ _, OutOfFuel.

Definition load {A} (t : Z) (field : thread → A) : M A :=
  gets (λ s, field (page (mem s) t)).
Definition store (t : Z) (f : thread → thread) : M unit :=
  modify (write_thread t f).

(** ** Collaborators that live outside thread.c *)

(** Modelled from the spec: the "Ordered Wait List", the ordered-insertion
    sequence behind both queues (lib/kernel/list.c is not part of the
    sources at hand).  The new element goes in front of the first element
    it is strictly less than, hence behind every element it ties with. *)
Fixpoint insert_ordered {A} (less : A → A → bool) (x : A) (l : list A)
  : list A :=
  match l with
  | [] => [x]
  | e :: l' => if less x e then x :: e :: l' else e :: insert_ordered less x l'
  end.

(** The three lists of thread.c, by name. *)
Inductive list_ref := READY_LIST | SLEEP_LIST | DESTRUCTION_REQ.

Definition list_get (r : list_ref) (s : sched) : list Z :=
  match r with
  | READY_LIST => ready_list s
  | SLEEP_LIST => sleep_list s
  | DESTRUCTION_REQ => destruction_req s
  end.

Definition list_update (r : list_ref) (f : list Z → list Z) (s : sched)
  : sched :=
  match r with
  | READY_LIST => with_ready f s
  | SLEEP_LIST => with_sleep f s
  | DESTRUCTION_REQ => with_destruction f s
  end.

(** Modelled from the spec: the list operations thread.c calls, on the
    sequence of members of a list ("pop the front", "appended to"). *)
Definition list_empty (r : list_ref) : M bool :=
  gets (λ s, match list_get r s with [] => true | _ :: _ => false end).

Definition list_front (r : list_ref) : M Z :=
  λ s, match list_get r s with
       | [] => Panic "list_front: empty list"
       | e :: _ => Ok (e, s)
       end.

Definition list_pop_front (r : list_ref) : M Z :=
  λ s, match list_get r s with
       | [] => Panic "list_pop_front: empty list"
       | e :: _ => Ok (e, list_update r (tail) s)
       end.

Definition list_push_back (r : list_ref) (e : Z) : M unit :=
  modify (list_update r (λ l, l ++ [e])).

Definition list_insert_ordered (r : list_ref) (e : Z)
    (less : gmap Z thread → Z → Z → bool) : M unit :=
  modify (λ s, list_update r (insert_ordered (less (mem s)) e) s).

(** Modelled from the spec: interrupt masking and the deferred-preemption
    flag of the interrupt layer (threads/interrupt.c is not part of the
    sources at hand). *)
Definition intr_get_level : M intr_level := gets level.
Definition intr_set_level (l : intr_level) : M intr_level :=
  old <- gets level ;; modify (with_level l) ;; ret old.
Definition intr_disable : M intr_level := intr_set_level INTR_OFF.
Definition intr_context : M bool := gets in_external_intr.
Definition intr_yield_on_return : M unit :=
  modify (with_yield_on_return true).

(** Modelled from the spec: the page allocator "supplies/reclaims the
    fixed-size memory block backing each task" (threads/palloc.c is not part
    of the sources at hand).  [PAL_ZERO] pages come back zeroed; with no
    free page the result is [NULL]. *)
Definition palloc_get_page : M Z :=
  λ s, match free_pages s with
       | [] => Ok (NULL, s)
       | p :: ps => Ok (p, with_free (λ _, ps)
                             (with_mem (λ m, <[p := zero_thread]> m) s))
       end.

Definition palloc_free_page (p : Z) : M unit :=
  modify (with_free (λ l, l ++ [p])).

(** [strlcpy (t->name, name, sizeof t->name)] with [char name[16]]. *)
Definition strlcpy16 (src : string) : string := String.substring 0 15 src.

(** ** threads/thread.c *)

(** [is_thread (t)]: [(t) != NULL && (t)->magic == THREAD_MAGIC]. *)
Definition is_thread_b (m : gmap Z thread) (t : Z) : bool :=
  negb (t =? NULL) && (magic (page m t) =? THREAD_MAGIC).

Definition is_thread (t : Z) : M bool := gets (λ s, is_thread_b (mem s) t).

Definition running_thread : M Z := gets running.

Definition thread_current : M Z :=
  t <- running_thread ;;
  ok <- is_thread t ;;
  ASSERT ok "is_thread (t)" ;;
  st <- load t status ;;
  ASSERT (bool_decide (st = THREAD_RUNNING)) "t->status == THREAD_RUNNING" ;;
  ret t.

Definition thread_tick : M unit :=
  t <- thread_current ;;
  idle <- gets idle_thread ;;
  (if t =? idle then modify (with_idle_ticks Z.succ)
   else modify (with_kernel_ticks Z.succ)) ;;
  modify (with_thread_ticks (λ n, (n + 1) mod 2 ^ 32)) ;;
  n <- gets thread_ticks ;;
  if TIME_SLICE <=? n then intr_yield_on_return else ret tt.

(** [lock_acquire (&tid_lock)] and [lock_release] bracket the increment;
    on the single core the counter is read and bumped in one step. *)
Definition allocate_tid : M tid_t :=
  v <- gets next_tid ;;
  modify (with_next_tid Z.succ) ;;
  ret v.

Definition thread_wakeup_cmp (m : gmap Z thread) (a b : Z) : bool :=
  let x := page m a in
  let y := page m b in
  if negb (wakeup_tick x =? wakeup_tick y)
  then wakeup_tick x <? wakeup_tick y
  else priority y <? priority x.

Definition thread_prio_cmp (m : gmap Z thread) (a b : Z) : bool :=
  let x := a in
  let y := b in
  if (x =? NULL) || (y =? NULL) then false
  else priority (page m y) <? priority (page m x).

Definition init_thread (t : Z) (nm : string) (prio : Z) : M unit :=
  ASSERT (negb (t =? NULL)) "t != NULL" ;;
  ASSERT ((PRI_MIN <=? prio) && (prio <=? PRI_MAX))
         "PRI_MIN <= priority && priority <= PRI_MAX" ;;
  store t (λ _, zero_thread) ;;
  store t (set_status THREAD_BLOCKED) ;;
  store t (set_name (strlcpy16 nm)) ;;
  store t (λ th, set_tf {| rip := rip (tf th); rdi := rdi (tf th);
                           rsi := rsi (tf th); rsp := t + PGSIZE - 8 |} th) ;;
  store t (set_priority prio) ;;
  store t (set_magic THREAD_MAGIC).

(** [lock_init] and [lgdt] touch nothing that is modelled here;
    [list_init] leaves a list empty. *)
Definition thread_init : M unit :=
  lv <- intr_get_level ;;
  ASSERT (bool_decide (lv = INTR_OFF)) "intr_get_level () == INTR_OFF" ;;
  modify (with_ready (λ _, [])) ;;
  modify (with_destruction (λ _, [])) ;;
  modify (with_sleep (λ _, [])) ;;
  init <- running_thread ;;
  modify (with_initial_thread init) ;;
  init_thread init "main" PRI_DEFAULT ;;
  store init (set_status THREAD_RUNNING) ;;
  v <- allocate_tid ;;
  store init (set_tid v).

Definition next_thread_to_run : M Z :=
  e <- list_empty READY_LIST ;;
  if e then gets idle_thread else list_pop_front READY_LIST.

(** The stack switch: from here on [running_thread ()] is [th]. *)
Definition thread_launch (th : Z) : M unit := modify (with_running th).

Definition schedule : M unit :=
  curr <- running_thread ;;
  next <- next_thread_to_run ;;
  lv <- intr_get_level ;;
  ASSERT (bool_decide (lv = INTR_OFF)) "intr_get_level () == INTR_OFF" ;;
  cst <- load curr status ;;
  ASSERT (negb (bool_decide (cst = THREAD_RUNNING)))
         "curr->status != THREAD_RUNNING" ;;
  ok <- is_thread next ;;
  ASSERT ok "is_thread (next)" ;;
  store next (set_status THREAD_RUNNING) ;;
  modify (with_thread_ticks (λ _, 0)) ;;
  if negb (curr =? next) then
    st <- load curr status ;;
    init <- gets initial_thread ;;
    (if negb (curr =? NULL) && bool_decide (st = THREAD_DYING)
        && negb (curr =? init)
     then ASSERT (negb (curr =? next)) "curr != next" ;;
          list_push_back DESTRUCTION_REQ curr
     else ret tt) ;;
    thread_launch next
  else ret tt.

(** [while (!list_empty (&destruction_req))] with a bound on the number of
    iterations. *)
Fixpoint free_victims (fuel : nat) : M unit :=
  match fuel with
  | O => out_of_fuel
  | S fuel' =>
      e <- list_empty DESTRUCTION_REQ ;;
      if e then ret tt
      else victim <- list_pop_front DESTRUCTION_REQ ;;
           palloc_free_page victim ;;
           free_victims fuel'
  end.

Definition do_schedule (st : thread_status) : M unit :=
  lv <- intr_get_level ;;
  ASSERT (bool_decide (lv = INTR_OFF)) "intr_get_level () == INTR_OFF" ;;
  cur0 <- thread_current ;;
  st0 <- load cur0 status ;;
  ASSERT (bool_decide (st0 = THREAD_RUNNING))
         "thread_current()->status == THREAD_RUNNING" ;;
  n <- gets (λ s, length (destruction_req s)) ;;
  free_victims (S n) ;;
  cur <- thread_current ;;
  store cur (set_status st) ;;
  schedule.

Definition thread_block : M unit :=
  c <- intr_context ;;
  ASSERT (negb c) "!intr_context ()" ;;
  lv <- intr_get_level ;;
  ASSERT (bool_decide (lv = INTR_OFF)) "intr_get_level () == INTR_OFF" ;;
  cur <- thread_current ;;
  store cur (set_status THREAD_BLOCKED) ;;
  schedule.

Definition thread_unblock (t : Z) : M unit :=
  ok <- is_thread t ;;
  ASSERT ok "is_thread (t)" ;;
  old_level <- intr_disable ;;
  st <- load t status ;;
  ASSERT (bool_decide (st = THREAD_BLOCKED)) "t->status == THREAD_BLOCKED" ;;
  list_insert_ordered READY_LIST t thread_prio_cmp ;;
  store t (set_status THREAD_READY) ;;
  _ <- intr_set_level old_level ;;
  ret tt.

Definition thread_yield : M unit :=
  curr <- thread_current ;;
  c <- intr_context ;;
  ASSERT (negb c) "!intr_context ()" ;;
  old_level <- intr_disable ;;
  idle <- gets idle_thread ;;
  (if negb (curr =? idle)
   then list_insert_ordered READY_LIST curr thread_prio_cmp
   else ret tt) ;;
  do_schedule THREAD_READY ;;
  _ <- intr_set_level old_level ;;
  ret tt.

(** [NOT_REACHED ()] is reached when [do_schedule] comes back on the same
    stack, that is when no switch took place. *)
Definition thread_exit : M unit :=
  c <- intr_context ;;
  ASSERT (negb c) "!intr_context ()" ;;
  _ <- intr_disable ;;
  dying <- running_thread ;;
  do_schedule THREAD_DYING ;;
  now <- running_thread ;;
  if now =? dying then panic "NOT_REACHED" else ret tt.

Definition thread_get_priority : M Z :=
  cur <- thread_current ;;
  load cur priority.

Definition max_priority : M unit :=
  e <- list_empty READY_LIST ;;
  if e then ret tt
  else th <- list_front READY_LIST ;;
       mine <- thread_get_priority ;;
       theirs <- load th priority ;;
       if mine <? theirs then thread_yield else ret tt.

Definition thread_set_priority (new_priority : Z) : M unit :=
  cur <- thread_current ;;
  store cur (set_priority new_priority) ;;
  max_priority.

Definition thread_create (nm : string) (prio : Z) (function aux : Z)
  : M tid_t :=
  ASSERT (negb (function =? NULL)) "function != NULL" ;;
  t <- palloc_get_page ;;
  if t =? NULL then ret TID_ERROR
  else
    init_thread t nm prio ;;
    v <- allocate_tid ;;
    store t (set_tid v) ;;
    store t (λ th, set_tf {| rip := code_kernel_thread; rdi := function;
                             rsi := aux; rsp := rsp (tf th) |} th) ;;
    thread_unblock t ;;
    theirs <- load t priority ;;
    cur <- thread_current ;;
    mine <- load cur priority ;;
    (if mine <? theirs then thread_yield else ret tt) ;;
    ret v.

Definition thread_sleep (wakeup : Z) : M unit :=
  cur <- thread_current ;;
  idle <- gets idle_thread ;;
  if cur =? idle then ret tt
  else
    old_level <- intr_disable ;;
    store cur (set_wakeup_tick wakeup) ;;
    c <- intr_context ;;
    ASSERT (negb c) "!intr_context ()" ;;
    list_insert_ordered SLEEP_LIST cur thread_wakeup_cmp ;;
    thread_block ;;
    _ <- intr_set_level old_level ;;
    ret tt.

(** The [while] loop of [thread_awake], with a bound on the number of
    iterations; the result is the local [preempt]. *)
Fixpoint awake_loop (fuel : nat) (now_tick : Z) (preempt : bool) : M bool :=
  match fuel with
  | O => out_of_fuel
  | S fuel' =>
      e <- list_empty SLEEP_LIST ;;
      if e then ret preempt
      else
        t <- list_front SLEEP_LIST ;;
        w <- load t wakeup_tick ;;
        if w <=? now_tick then
          _ <- list_pop_front SLEEP_LIST ;;
          thread_unblock t ;;
          theirs <- load t priority ;;
          cur <- thread_current ;;
          mine <- load cur priority ;;
          awake_loop fuel' now_tick (if mine <? theirs then true else preempt)
        else ret preempt
  end.

Definition thread_awake (now_tick : Z) : M unit :=
  old <- intr_disable ;;
  n <- gets (λ s, length (sleep_list s)) ;;
  preempt <- awake_loop (S n) now_tick false ;;
  (if preempt then intr_yield_on_return else ret tt) ;;
  _ <- intr_set_level old ;;
  ret tt.

(** The first statement of [idle]: [idle_thread = thread_current ()]. *)
Definition idle_start : M unit :=
  cur <- thread_current ;;
  modify (with_idle_thread cur).

(** ** Reduction of the monad and of state accesses *)

Ltac mred :=
  cbv beta iota delta
    [bind ret gets modify ASSERT panic load store out_of_fuel
     intr_get_level intr_set_level intr_disable intr_context
     intr_yield_on_return list_empty list_front list_pop_front
     list_push_back list_insert_ordered is_thread running_thread
     thread_launch palloc_free_page allocate_tid].

Ltac sred :=
  cbn [mem ready_list sleep_list idle_thread initial_thread destruction_req
       idle_ticks kernel_ticks user_ticks thread_ticks next_tid running level
       in_external_intr yield_on_return free_pages
       with_mem with_ready with_sleep with_idle_thread with_initial_thread
       with_destruction with_idle_ticks with_kernel_ticks with_thread_ticks
       with_next_tid with_running with_level with_in_external_intr
       with_yield_on_return with_free
       write_thread list_get list_update].

Ltac sred_in H :=
  cbn [mem ready_list sleep_list idle_thread initial_thread destruction_req
       idle_ticks kernel_ticks user_ticks thread_ticks next_tid running level
       in_external_intr yield_on_return free_pages
       with_mem with_ready with_sleep with_idle_thread with_initial_thread
       with_destruction with_idle_ticks with_kernel_ticks with_thread_ticks
       with_next_tid with_running with_level with_in_external_intr
       with_yield_on_return with_free
       write_thread list_get list_update] in H.

Ltac sfull :=
  cbv beta iota delta
      [mem ready_list sleep_list idle_thread initial_thread destruction_req
       idle_ticks kernel_ticks user_ticks thread_ticks next_tid running level
       in_external_intr yield_on_return free_pages
       with_mem with_ready with_sleep with_idle_thread with_initial_thread
       with_destruction with_idle_ticks with_kernel_ticks with_thread_ticks
       with_next_tid with_running with_level with_in_external_intr
       with_yield_on_return with_free
       write_thread list_get list_update].

Lemma page_insert_eq m t v : page (<[t := v]> m) t = v.
Proof. unfold page. by rewrite lookup_insert_eq. Qed.

Lemma page_insert_ne m t u v : t ≠ u → page (<[t := v]> m) u = page m u.
Proof. intros. unfold page. by rewrite lookup_insert_ne. Qed.

(** ** What each function computes *)

Lemma thread_current_eq s :
  thread_current s =
    if is_thread_b (mem s) (running s) then
      if bool_decide (stat s (running s) = THREAD_RUNNING)
      then Ok (running s, s)
      else Panic "t->status == THREAD_RUNNING"
    else Panic "is_thread (t)".
Proof.
  unfold thread_current. mred.
  destruct (is_thread_b (mem s) (running s)); [|done].
  by destruct (bool_decide _).
Qed.

Definition unblocked (t : Z) (s : sched) : sched :=
  write_thread t (set_status THREAD_READY)
    (with_ready (insert_ordered (thread_prio_cmp (mem s)) t) s).

Lemma thread_unblock_eq t s :
  thread_unblock t s =
    if is_thread_b (mem s) t then
      if bool_decide (stat s t = THREAD_BLOCKED) then Ok (tt, unblocked t s)
      else Panic "t->status == THREAD_BLOCKED"
    else Panic "is_thread (t)".
Proof.
  unfold thread_unblock. mred.
  destruct (is_thread_b (mem s) t); [|done]. sred.
  destruct (bool_decide _); [|done].
  by destruct s.
Qed.

Definition next_of (s : sched) : Z :=
  match ready_list s with [] => idle_thread s | n :: _ => n end.

Lemma next_thread_to_run_eq s :
  next_thread_to_run s = Ok (next_of s, with_ready (tail) s).
Proof.
  unfold next_thread_to_run, next_of. mred. sred.
  destruct s as [? [|n r]]; reflexivity.
Qed.

(** The state [schedule] leaves behind when its assertions hold. *)
Definition switched (s : sched) : sched :=
  let curr := running s in
  let next := next_of s in
  let s1 := with_thread_ticks (λ _, 0)
              (write_thread next (set_status THREAD_RUNNING)
                 (with_ready (tail) s)) in
  if curr =? next then s1
  else with_running next
         (if negb (curr =? NULL) && bool_decide (stat s curr = THREAD_DYING)
             && negb (curr =? initial_thread s)
          then with_destruction (λ l, l ++ [curr]) s1
          else s1).

Lemma schedule_eq s :
  schedule s =
    if bool_decide (level s = INTR_OFF) then
      if negb (bool_decide (stat s (running s) = THREAD_RUNNING)) then
        if is_thread_b (mem s) (next_of s) then Ok (tt, switched s)
        else Panic "is_thread (next)"
      else Panic "curr->status != THREAD_RUNNING"
    else Panic "intr_get_level () == INTR_OFF".
Proof.
  unfold schedule. unfold bind at 1. unfold running_thread at 1, gets at 1.
  unfold bind at 1. rewrite next_thread_to_run_eq.
  mred. sred.
  destruct (bool_decide (level s = INTR_OFF)); [|done].
  destruct (negb (bool_decide _)); [|done]. mred; sred.
  destruct (is_thread_b (mem s) (next_of s)); [|done]. mred; sred.
  unfold switched.
  destruct (running s =? next_of s) eqn:Hcn; cbn [negb]; [done|].
  apply Z.eqb_neq in Hcn. mred; sred.
  rewrite page_insert_ne by done.
  destruct (_ && _ && _); mred; sred; by destruct s.
Qed.

Definition drained (s : sched) : sched :=
  with_free (λ l, l ++ destruction_req s) (with_destruction (λ _, []) s).

Lemma free_victims_eq fuel s :
  (length (destruction_req s) < fuel)%nat →
  free_victims fuel s = Ok (tt, drained s).
Proof.
  revert s. induction fuel as [|fuel IH]; intros s Hlen; [lia|].
  cbn [free_victims]. mred. sred.
  destruct s as [m rl sl idl ini [|v d] ? ? ? ? ? ? ? ? ? fp]; sred.
  - unfold drained; sfull. by rewrite app_nil_r.
  - rewrite IH by (sred; cbn in *; lia).
    unfold drained; sfull. cbn [tail]. by rewrite <- app_assoc.
Qed.

Lemma do_schedule_eq st s :
  do_schedule st s =
    if bool_decide (level s = INTR_OFF) then
      if is_thread_b (mem s) (running s) then
        if bool_decide (stat s (running s) = THREAD_RUNNING)
        then schedule (write_thread (running s) (set_status st) (drained s))
        else Panic "t->status == THREAD_RUNNING"
      else Panic "is_thread (t)"
    else Panic "intr_get_level () == INTR_OFF".
Proof.
  unfold do_schedule.
  unfold bind at 1, intr_get_level, gets at 1.
  unfold bind at 1, ASSERT at 1.
  destruct (bool_decide (level s = INTR_OFF)); [|done].
  unfold ret at 1. unfold bind at 1. rewrite thread_current_eq.
  destruct (is_thread_b (mem s) (running s)) eqn:Hth; [|done].
  destruct (bool_decide (stat s _ = _)) eqn:Hst; [|done].
  unfold bind at 1, load, gets at 1. unfold bind at 1, ASSERT at 1.
  rewrite Hst. unfold ret at 1.
  unfold bind at 1, gets at 1. unfold bind at 1.
  rewrite free_victims_eq by lia.
  unfold bind at 1. rewrite thread_current_eq.
  change (mem (drained s)) with (mem s).
  change (running (drained s)) with (running s).
  rewrite Hth, Hst. reflexivity.
Qed.

Lemma is_thread_b_write m a f u :
  magic (f (page m a)) = magic (page m a) →
  is_thread_b (<[a := f (page m a)]> m) u = is_thread_b m u.
Proof.
  intros Hm. unfold is_thread_b. destruct (decide (a = u)) as [->|Hne].
  - by rewrite page_insert_eq, Hm.
  - by rewrite page_insert_ne.
Qed.

Lemma running_switched s : running (switched s) = next_of s.
Proof.
  unfold switched. destruct (running s =? next_of s) eqn:E; [|done].
  apply Z.eqb_eq in E. by rewrite <- E.
Qed.

(** The state [do_schedule] leaves behind when its assertions hold. *)
Definition rescheduled (st : thread_status) (s : sched) : sched :=
  switched (write_thread (running s) (set_status st) (drained s)).

Lemma do_schedule_run st s :
  do_schedule st s =
    if bool_decide (level s = INTR_OFF) then
      if is_thread_b (mem s) (running s) then
        if bool_decide (stat s (running s) = THREAD_RUNNING) then
          if negb (bool_decide (st = THREAD_RUNNING)) then
            if is_thread_b (mem s) (next_of s)
            then Ok (tt, rescheduled st s)
            else Panic "is_thread (next)"
          else Panic "curr->status != THREAD_RUNNING"
        else Panic "t->status == THREAD_RUNNING"
      else Panic "is_thread (t)"
    else Panic "intr_get_level () == INTR_OFF".
Proof.
  rewrite do_schedule_eq.
  destruct (bool_decide (level s = INTR_OFF)) eqn:Hl; [|done].
  destruct (is_thread_b (mem s) (running s)); [|done].
  destruct (bool_decide (stat s _ = _)); [|done].
  rewrite schedule_eq.
  change (level (write_thread (running s) (set_status st) (drained s)))
    with (level s).
  rewrite Hl. unfold drained at 1 2 3 4. sred.
  rewrite page_insert_eq. cbn [status set_status].
  destruct (negb (bool_decide (st = THREAD_RUNNING))); [|done].
  rewrite is_thread_b_write by done.
  change (next_of _) with (next_of s) at 1 2.
  reflexivity.
Qed.

Lemma thread_block_eq s :
  thread_block s =
    if negb (in_external_intr s) then
      if bool_decide (level s = INTR_OFF) then
        if is_thread_b (mem s) (running s) then
          if bool_decide (stat s (running s) = THREAD_RUNNING) then
            if is_thread_b (mem s) (next_of s)
            then Ok (tt, switched (write_thread (running s)
                                     (set_status THREAD_BLOCKED) s))
            else Panic "is_thread (next)"
          else Panic "t->status == THREAD_RUNNING"
        else Panic "is_thread (t)"
      else Panic "intr_get_level () == INTR_OFF"
    else Panic "!intr_context ()".
Proof.
  unfold thread_block.
  unfold bind at 1, intr_context, gets at 1. unfold bind at 1, ASSERT at 1.
  destruct (negb (in_external_intr s)); [|done].
  unfold ret at 1. unfold bind at 1, intr_get_level, gets at 1.
  unfold bind at 1, ASSERT at 1.
  destruct (bool_decide (level s = INTR_OFF)) eqn:Hl; [|done].
  unfold ret at 1. unfold bind at 1. rewrite thread_current_eq.
  destruct (is_thread_b (mem s) (running s)); [|done].
  destruct (bool_decide (stat s _ = _)); [|done].
  unfold bind at 1, store, modify. rewrite schedule_eq. sred.
  rewrite Hl, page_insert_eq. cbn [status set_status negb].
  rewrite bool_decide_eq_false_2 by done. cbn [negb].
  rewrite is_thread_b_write by done.
  change (next_of _) with (next_of s) at 1.
  reflexivity.
Qed.

(** [thread_yield] up to its call of [do_schedule]. *)
Definition yield_enqueued (s : sched) : sched :=
  (if negb (running s =? idle_thread s)
   then with_ready (insert_ordered (thread_prio_cmp (mem s)) (running s))
   else λ s', s') (with_level INTR_OFF s).

Definition yielded (s : sched) : sched :=
  with_level (level s) (rescheduled THREAD_READY (yield_enqueued s)).

Lemma thread_yield_eq s :
  thread_yield s =
    if is_thread_b (mem s) (running s) then
      if bool_decide (stat s (running s) = THREAD_RUNNING) then
        if negb (in_external_intr s) then
          if is_thread_b (mem s) (next_of (yield_enqueued s))
          then Ok (tt, yielded s)
          else Panic "is_thread (next)"
        else Panic "!intr_context ()"
      else Panic "t->status == THREAD_RUNNING"
    else Panic "is_thread (t)".
Proof.
  unfold thread_yield. unfold bind at 1. rewrite thread_current_eq.
  destruct (is_thread_b (mem s) (running s)) eqn:Hth; [|done].
  destruct (bool_decide (stat s _ = _)) eqn:Hst; [|done].
  unfold bind at 1, intr_context, gets at 1. unfold bind at 1, ASSERT at 1.
  destruct (negb (in_external_intr s)); [|done].
  unfold ret at 1. mred. sred.
  unfold yielded, yield_enqueued.
  destruct (negb (running s =? idle_thread s)); mred; sred;
    rewrite do_schedule_run; sred; rewrite Hth, Hst; cbn;
    match goal with |- context [is_thread_b (mem s) ?n] =>
      destruct (is_thread_b (mem s) n) end; done.
Qed.

Lemma thread_exit_eq s :
  thread_exit s =
    if negb (in_external_intr s) then
      if is_thread_b (mem s) (running s) then
        if bool_decide (stat s (running s) = THREAD_RUNNING) then
          if is_thread_b (mem s) (next_of s) then
            if next_of s =? running s then Panic "NOT_REACHED"
            else Ok (tt, rescheduled THREAD_DYING (with_level INTR_OFF s))
          else Panic "is_thread (next)"
        else Panic "t->status == THREAD_RUNNING"
      else Panic "is_thread (t)"
    else Panic "!intr_context ()".
Proof.
  unfold thread_exit.
  unfold bind at 1, intr_context, gets at 1. unfold bind at 1, ASSERT at 1.
  destruct (negb (in_external_intr s)); [|done].
  unfold ret at 1. mred. sred. rewrite do_schedule_run. sred.
  destruct (is_thread_b (mem s) (running s)); [|done].
  destruct (bool_decide (stat s _ = _)); [|done]. cbn.
  change (next_of (with_level INTR_OFF s)) with (next_of s).
  destruct (is_thread_b (mem s) (next_of s)); [|done].
  rewrite bool_decide_eq_true_2, bool_decide_eq_false_2 by done.
  cbn [negb]. mred. unfold rescheduled at 1. rewrite running_switched.
  change (next_of _) with (next_of s) at 1.
  by destruct (next_of s =? running s).
Qed.

Lemma thread_get_priority_eq s :
  thread_get_priority s =
    if is_thread_b (mem s) (running s) then
      if bool_decide (stat s (running s) = THREAD_RUNNING)
      then Ok (prio s (running s), s)
      else Panic "t->status == THREAD_RUNNING"
    else Panic "is_thread (t)".
Proof.
  unfold thread_get_priority. unfold bind. rewrite thread_current_eq.
  destruct (is_thread_b (mem s) (running s)); [|done].
  by destruct (bool_decide _).
Qed.

Lemma max_priority_eq s :
  max_priority s =
    match ready_list s with
    | [] => Ok (tt, s)
    | th :: _ =>
        if is_thread_b (mem s) (running s) then
          if bool_decide (stat s (running s) = THREAD_RUNNING) then
            if prio s (running s) <? prio s th then thread_yield s
            else Ok (tt, s)
          else Panic "t->status == THREAD_RUNNING"
        else Panic "is_thread (t)"
    end.
Proof.
  unfold max_priority. unfold bind at 1, list_empty, gets at 1. sred.
  destruct (ready_list s) as [|th r] eqn:Hr; [done|].
  unfold bind at 1, list_front. sred. rewrite Hr.
  unfold bind at 1. rewrite thread_get_priority_eq.
  destruct (is_thread_b (mem s) (running s)); [|done].
  destruct (bool_decide (stat s _ = _)); [|done].
  mred. by destruct (_ <? _).
Qed.

Lemma thread_set_priority_eq p s :
  thread_set_priority p s =
    if is_thread_b (mem s) (running s) then
      if bool_decide (stat s (running s) = THREAD_RUNNING) then
        let s1 := write_thread (running s) (set_priority p) s in
        match ready_list s with
        | [] => Ok (tt, s1)
        | th :: _ => if p <? prio s1 th then thread_yield s1 else Ok (tt, s1)
        end
      else Panic "t->status == THREAD_RUNNING"
    else Panic "is_thread (t)".
Proof.
  unfold thread_set_priority. unfold bind at 1. rewrite thread_current_eq.
  destruct (is_thread_b (mem s) (running s)) eqn:Hth; [|done].
  destruct (bool_decide (stat s _ = _)) eqn:Hst; [|done].
  unfold bind at 1, store, modify. rewrite max_priority_eq. sred.
  destruct (ready_list s) as [|th r]; [done|].
  rewrite is_thread_b_write by done. rewrite Hth.
  rewrite page_insert_eq. cbn [status priority set_priority].
  by rewrite Hst.
Qed.

(** The page [init_thread] leaves behind. *)
Definition fresh_thread (t : Z) (nm : string) (prio : Z) : thread :=
  {| tid := 0; status := THREAD_BLOCKED; name := strlcpy16 nm;
     priority := prio; wakeup_tick := 0;
     tf := {| rip := code_zero; rdi := 0; rsi := 0; rsp := t + PGSIZE - 8 |};
     magic := THREAD_MAGIC |}.

Lemma init_thread_eq t nm p s :
  init_thread t nm p s =
    if negb (t =? NULL) then
      if (PRI_MIN <=? p) && (p <=? PRI_MAX)
      then Ok (tt, with_mem (λ m, <[t := fresh_thread t nm p]> m) s)
      else Panic "PRI_MIN <= priority && priority <= PRI_MAX"
    else Panic "t != NULL".
Proof.
  unfold init_thread. mred.
  destruct (negb (t =? NULL)); [|done].
  destruct (_ && _); [|done].
  sfull. rewrite !page_insert_eq, !insert_insert_eq. reflexivity.
Qed.

(** The state of [thread_create] after its [thread_unblock (t)], for a new
    thread in page [t]. *)
Definition spawned_thread (t : Z) (nm : string) (p function aux : Z)
    (v : tid_t) : thread :=
  {| tid := v; status := THREAD_BLOCKED; name := strlcpy16 nm;
     priority := p; wakeup_tick := 0;
     tf := {| rip := code_kernel_thread; rdi := function; rsi := aux;
              rsp := t + PGSIZE - 8 |};
     magic := THREAD_MAGIC |}.

Definition set_up (t : Z) (nm : string) (p function aux : Z) (s : sched)
  : sched :=
  with_next_tid Z.succ
    (with_mem (λ m, <[t := spawned_thread t nm p function aux (next_tid s)]> m)
       (with_free tail s)).

Definition spawned (t : Z) (nm : string) (p function aux : Z) (s : sched)
  : sched :=
  unblocked t (set_up t nm p function aux s).

(** The rest of [thread_create] after [thread_unblock (t)]. *)
Definition create_finish (p : Z) (v : tid_t) : M tid_t :=
  cur <- thread_current ;;
  mine <- load cur priority ;;
  (if mine <? p then thread_yield else ret tt) ;;
  ret v.

Lemma thread_create_eq nm p function aux s :
  thread_create nm p function aux s =
    if negb (function =? NULL) then
      match free_pages s with
      | [] => Ok (TID_ERROR, s)
      | t :: _ =>
          if t =? NULL
          then Ok (TID_ERROR, with_free tail
                                (with_mem (λ m, <[t := zero_thread]> m) s))
          else if (PRI_MIN <=? p) && (p <=? PRI_MAX)
          then create_finish p (next_tid s) (spawned t nm p function aux s)
          else Panic "PRI_MIN <= priority && priority <= PRI_MAX"
      end
    else Panic "function != NULL".
Proof.
  unfold thread_create. unfold bind at 1, ASSERT at 1.
  destruct (negb (function =? NULL)); [|done].
  unfold ret at 1, bind at 1, palloc_get_page.
  destruct (free_pages s) as [|t ps] eqn:Hfp; [done|].
  destruct (t =? NULL) eqn:Ht.
  { unfold ret. destruct s; sfull. cbn in Hfp. by subst. }
  unfold bind at 1. rewrite init_thread_eq. rewrite Ht. cbn [negb].
  destruct (_ && _); [|done].
  mred.
  match goal with |- context [thread_unblock t ?x] =>
    assert (E : x = set_up t nm p function aux s) end.
  { destruct s; unfold set_up; sfull. cbn in Hfp; subst.
    rewrite !page_insert_eq, !insert_insert_eq. reflexivity. }
  rewrite E. clear E. rewrite thread_unblock_eq.
  assert (Hpg : page (mem (set_up t nm p function aux s)) t
                = spawned_thread t nm p function aux (next_tid s))
    by (unfold set_up; sred; apply page_insert_eq).
  unfold is_thread_b. rewrite Hpg. cbn [magic status spawned_thread].
  rewrite Ht, Z.eqb_refl. cbn [negb andb].
  rewrite bool_decide_eq_true_2 by done.
  fold (spawned t nm p function aux s).
  assert (Hp : prio (spawned t nm p function aux s) t = p).
  { unfold spawned, unblocked. sred. rewrite page_insert_eq, Hpg. done. }
  rewrite Hp. unfold create_finish. mred. reflexivity.
Qed.

(** [thread_sleep] up to its call of [thread_block]. *)
Definition sleep_enqueued (w : Z) (s : sched) : sched :=
  let s1 := write_thread (running s) (set_wakeup_tick w)
              (with_level INTR_OFF s) in
  with_sleep (insert_ordered (thread_wakeup_cmp (mem s1)) (running s)) s1.

Definition slept (w : Z) (s : sched) : sched :=
  with_level (level s)
    (switched (write_thread (running s) (set_status THREAD_BLOCKED)
                 (sleep_enqueued w s))).

Lemma thread_sleep_eq w s :
  thread_sleep w s =
    if is_thread_b (mem s) (running s) then
      if bool_decide (stat s (running s) = THREAD_RUNNING) then
        if running s =? idle_thread s then Ok (tt, s)
        else if negb (in_external_intr s) then
          if is_thread_b (mem s) (next_of s) then Ok (tt, slept w s)
          else Panic "is_thread (next)"
        else Panic "!intr_context ()"
      else Panic "t->status == THREAD_RUNNING"
    else Panic "is_thread (t)".
Proof.
  unfold thread_sleep. unfold bind at 1. rewrite thread_current_eq.
  destruct (is_thread_b (mem s) (running s)) eqn:Hth; [|done].
  destruct (bool_decide (stat s _ = _)) eqn:Hst; [|done].
  unfold bind at 1, gets at 1.
  destruct (running s =? idle_thread s); [done|].
  mred. sred.
  destruct (negb (in_external_intr s)) eqn:Hc; [|done].
  fold (sleep_enqueued w s). rewrite thread_block_eq.
  change (in_external_intr (sleep_enqueued w s)) with (in_external_intr s).
  change (level (sleep_enqueued w s)) with INTR_OFF.
  change (running (sleep_enqueued w s)) with (running s).
  change (next_of (sleep_enqueued w s)) with (next_of s).
  change (mem (sleep_enqueued w s))
    with (<[running s := set_wakeup_tick w (page (mem s) (running s))]>
            (mem s)).
  rewrite Hc. rewrite is_thread_b_write by done. rewrite Hth.
  rewrite page_insert_eq. cbn [status set_wakeup_tick]. rewrite Hst.
  rewrite bool_decide_eq_true_2 by done.
  rewrite is_thread_b_write by done.
  by destruct (is_thread_b (mem s) (next_of s)).
Qed.

Definition ticked (s : sched) : sched :=
  let s1 := with_thread_ticks (λ n, (n + 1) mod 2 ^ 32)
              ((if running s =? idle_thread s then with_idle_ticks Z.succ
                else with_kernel_ticks Z.succ) s) in
  if TIME_SLICE <=? thread_ticks s1 then with_yield_on_return true s1 else s1.

Lemma thread_tick_eq s :
  thread_tick s =
    if is_thread_b (mem s) (running s) then
      if bool_decide (stat s (running s) = THREAD_RUNNING)
      then Ok (tt, ticked s)
      else Panic "t->status == THREAD_RUNNING"
    else Panic "is_thread (t)".
Proof.
  unfold thread_tick. unfold bind at 1. rewrite thread_current_eq.
  destruct (is_thread_b (mem s) (running s)); [|done].
  destruct (bool_decide (stat s _ = _)); [|done].
  unfold ticked. mred.
  destruct (running s =? idle_thread s); sred;
    by destruct (TIME_SLICE <=? _).
Qed.

Lemma idle_start_eq s :
  idle_start s =
    if is_thread_b (mem s) (running s) then
      if bool_decide (stat s (running s) = THREAD_RUNNING)
      then Ok (tt, with_idle_thread (running s) s)
      else Panic "t->status == THREAD_RUNNING"
    else Panic "is_thread (t)".
Proof.
  unfold idle_start. unfold bind. rewrite thread_current_eq.
  destruct (is_thread_b (mem s) (running s)); [|done].
  by destruct (bool_decide _).
Qed.

(** The page of the initial thread after [thread_init]. *)
Definition main_thread (t : Z) (v : tid_t) : thread :=
  {| tid := v; status := THREAD_RUNNING; name := "main";
     priority := PRI_DEFAULT; wakeup_tick := 0;
     tf := {| rip := code_zero; rdi := 0; rsi := 0; rsp := t + PGSIZE - 8 |};
     magic := THREAD_MAGIC |}.

Definition booted (s : sched) : sched :=
  with_mem (λ m, <[running s := main_thread (running s) (next_tid s)]> m)
    (with_next_tid Z.succ
       (with_initial_thread (running s)
          (with_sleep (λ _, [])
             (with_destruction (λ _, []) (with_ready (λ _, []) s))))).

Lemma thread_init_eq s :
  thread_init s =
    if bool_decide (level s = INTR_OFF) then
      if negb (running s =? NULL) then Ok (tt, booted s)
      else Panic "t != NULL"
    else Panic "intr_get_level () == INTR_OFF".
Proof.
  unfold thread_init.
  unfold bind at 1, intr_get_level, gets at 1. unfold bind at 1, ASSERT at 1.
  destruct (bool_decide (level s = INTR_OFF)); [|done].
  unfold ret at 1. mred. sred. rewrite init_thread_eq.
  destruct (negb (running s =? NULL)); [|done].
  cbn. unfold booted. destruct s; sfull.
  rewrite !page_insert_eq, !insert_insert_eq. reflexivity.
Qed.

(** *** The wake-up loop *)

Definition due (now : Z) (m : gmap Z thread) (t : Z) : bool :=
  wakeup_tick (page m t) <=? now.

Definition outranks (m : gmap Z thread) (cur t : Z) : bool :=
  priority (page m cur) <? priority (page m t).

(** The entries at the front of the sleep queue that are due. *)
Fixpoint take_due (now : Z) (m : gmap Z thread) (l : list Z) : list Z :=
  match l with
  | [] => []
  | t :: l' => if due now m t then t :: take_due now m l' else []
  end.

Fixpoint drop_due (now : Z) (m : gmap Z thread) (l : list Z) : list Z :=
  match l with
  | [] => []
  | t :: l' => if due now m t then drop_due now m l' else l
  end.

(** One iteration that wakes [t]: [list_pop_front] then [thread_unblock]. *)
Definition wake_one (s : sched) (t : Z) : sched :=
  unblocked t (with_sleep tail s).

Definition awoken (now : Z) (s : sched) : sched :=
  let w := take_due now (mem s) (sleep_list s) in
  with_level (level s)
    ((if existsb (outranks (mem s) (running s)) w
      then with_yield_on_return true else λ s', s')
       (foldl wake_one (with_level INTR_OFF s) w)).

Definition blocked_threads (m : gmap Z thread) (l : list Z) : Prop :=
  Forall (λ t, is_thread_b m t = true ∧ status (page m t) = THREAD_BLOCKED) l.

Definition ready_threads (m : gmap Z thread) (l : list Z) : Prop :=
  Forall (λ t, is_thread_b m t = true ∧ status (page m t) = THREAD_READY) l.

Definition running_ok (s : sched) : Prop :=
  is_thread_b (mem s) (running s) = true
  ∧ stat s (running s) = THREAD_RUNNING.

Lemma page_write m a f u :
  page (<[a := f (page m a)]> m) u
  = if decide (a = u) then f (page m a) else page m u.
Proof.
  case_decide; [subst; apply page_insert_eq | by apply page_insert_ne].
Qed.

Lemma take_due_ext now m m' l :
  (∀ u, wakeup_tick (page m' u) = wakeup_tick (page m u)) →
  take_due now m' l = take_due now m l.
Proof.
  intros H. induction l as [|t l IH]; [done|].
  cbn. unfold due. rewrite H, IH. done.
Qed.

Lemma existsb_outranks_ext m m' c l :
  (∀ u, priority (page m' u) = priority (page m u)) →
  existsb (outranks m' c) l = existsb (outranks m c) l.
Proof.
  intros H. induction l as [|t l IH]; [done|].
  cbn. unfold outranks at 1 3. by rewrite !H, IH.
Qed.

Lemma wake_one_page s t u :
  page (mem (wake_one s t)) u
  = if decide (t = u) then set_status THREAD_READY (page (mem s) t)
    else page (mem s) u.
Proof. unfold wake_one, unblocked. sred. apply page_write. Qed.

Lemma awake_loop_run fuel now pre s :
  (length (sleep_list s) < fuel)%nat →
  blocked_threads (mem s) (sleep_list s) →
  NoDup (sleep_list s) →
  running_ok s →
  awake_loop fuel now pre s =
    Ok (pre || existsb (outranks (mem s) (running s))
                 (take_due now (mem s) (sleep_list s)),
        foldl wake_one s (take_due now (mem s) (sleep_list s))).
Proof.
  revert pre s. induction fuel as [|fuel IH]; intros pre s Hlen Hb Hnd Hrun;
    [lia|].
  cbn [awake_loop]. unfold bind at 1, list_empty, gets at 1. sred.
  destruct (sleep_list s) as [|t r] eqn:Hsl.
  { cbn. by rewrite orb_false_r. }
  unfold bind at 1, list_front. sred. rewrite Hsl.
  unfold bind at 1, load, gets at 1.
  cbn [take_due]. unfold due at 1 2.
  destruct (wakeup_tick (page (mem s) t) <=? now) eqn:Hdue.
  2:{ cbn. by rewrite orb_false_r. }
  unfold bind at 1, list_pop_front. sred. rewrite Hsl.
  unfold bind at 1. rewrite thread_unblock_eq. sred.
  apply Forall_cons in Hb as [[Hth Hst] Hb].
  apply NoDup_cons in Hnd as [Hnt Hnd].
  destruct Hrun as [Hrt Hrs].
  rewrite Hth, bool_decide_eq_true_2 by done.
  fold (wake_one s t).
  unfold bind at 1, gets at 1. unfold bind at 1. rewrite thread_current_eq.
  assert (Hne : t ≠ running s) by (intros ->; congruence).
  assert (Hrun' : running_ok (wake_one s t)).
  { unfold running_ok. change (running (wake_one s t)) with (running s).
    unfold is_thread_b in *. rewrite wake_one_page.
    by rewrite decide_False by done. }
  destruct Hrun' as [Hrt' Hrs'].
  rewrite Hrt', bool_decide_eq_true_2 by done.
  unfold bind at 1, gets at 1.
  assert (Hsl' : sleep_list (wake_one s t) = r).
  { unfold wake_one, unblocked. sred. by rewrite Hsl. }
  assert (Hprio : ∀ u, priority (page (mem (wake_one s t)) u)
                       = priority (page (mem s) u)).
  { intros u. rewrite wake_one_page. by case_decide; subst. }
  assert (Hwake : ∀ u, wakeup_tick (page (mem (wake_one s t)) u)
                       = wakeup_tick (page (mem s) u)).
  { intros u. rewrite wake_one_page. by case_decide; subst. }
  rewrite IH.
  - rewrite Hsl'. change (running (wake_one s t)) with (running s).
    rewrite (take_due_ext _ _ _ _ Hwake), (existsb_outranks_ext _ _ _ _ Hprio).
    rewrite !Hprio. cbn [existsb foldl]. unfold outranks at 2.
    f_equal. f_equal.
    destruct (priority (page (mem s) (running s)) <? priority (page (mem s) t));
      [by rewrite orb_true_r | done].
  - rewrite Hsl'. cbn in Hlen. lia.
  - rewrite Hsl'. unfold blocked_threads in *.
    rewrite Forall_forall in Hb. apply Forall_forall. intros u Hu.
    destruct (Hb u Hu) as [Hut Hus].
    unfold is_thread_b in *. rewrite wake_one_page.
    rewrite decide_False; [done|]. by intros ->.
  - by rewrite Hsl'.
  - done.
Qed.

Lemma thread_awake_run now s :
  blocked_threads (mem s) (sleep_list s) →
  NoDup (sleep_list s) →
  running_ok s →
  thread_awake now s = Ok (tt, awoken now s).
Proof.
  intros Hb Hnd Hrun. unfold thread_awake.
  unfold bind at 1, intr_disable, intr_set_level. mred. sred.
  rewrite awake_loop_run; sred; [|lia|done..].
  cbn [orb]. unfold awoken.
  destruct (existsb _ _); reflexivity.
Qed.

(** ** Ordered insertion *)

Section insert_ordered.
Context {A : Type} (less : A → A → bool) (R : relation A) (P : A → Prop).
Hypothesis R_trans : ∀ a b c, R a b → R b c → R a c.
Hypothesis less_R : ∀ a b, P a → P b → less a b = true → R a b.
Hypothesis not_less_R : ∀ a b, P a → P b → less a b = false → R b a.

Lemma insert_ordered_perm x l : insert_ordered less x l ≡ₚ x :: l.
Proof using Type.
  induction l as [|e l IH]; cbn; [done|].
  destruct (less x e); [done|]. rewrite IH. apply Permutation_swap.
Qed.

Lemma insert_ordered_elem_of x y l :
  y ∈ insert_ordered less x l ↔ y = x ∨ y ∈ l.
Proof using Type. rewrite insert_ordered_perm. apply elem_of_cons. Qed.

Lemma insert_ordered_sorted x l :
  P x → Forall P l →
  StronglySorted R l → StronglySorted R (insert_ordered less x l).
Proof using R_trans less_R not_less_R.
  intros Hx Hl Hs. induction l as [|e l IH]; cbn.
  - repeat constructor.
  - apply Forall_cons in Hl as [He Hl].
    apply StronglySorted_cons in Hs as [Hel Hs].
    destruct (less x e) eqn:Hle.
    + apply StronglySorted_cons. split.
      * constructor; [by apply less_R|].
        eapply Forall_impl; [exact Hel|]. intros y Hy.
        eapply R_trans; [|exact Hy]. by apply less_R.
      * by apply StronglySorted_cons.
    + apply StronglySorted_cons. split; [|by apply IH].
      apply Forall_forall. intros y Hy.
      apply insert_ordered_elem_of in Hy as [->|Hy].
      * by apply not_less_R.
      * rewrite Forall_forall in Hel. by apply Hel.
Qed.

(** The new element goes behind every element it is not less than and in
    front of the first one it is less than; the others keep their order. *)
Lemma insert_ordered_split x l :
  ∃ l1 l2, l = l1 ++ l2
    ∧ insert_ordered less x l = l1 ++ x :: l2
    ∧ Forall (λ e, less x e = false) l1
    ∧ (∀ e, head l2 = Some e → less x e = true).
Proof using Type.
  induction l as [|e l (l1 & l2 & -> & Hi & H1 & H2)]; cbn.
  - exists [], []. by repeat split.
  - destruct (less x e) eqn:Hle.
    + exists [], (e :: l1 ++ l2). repeat split; [done|].
      intros e' [= <-]. done.
    + exists (e :: l1), l2. rewrite Hi. repeat split; [|done].
      by constructor.
Qed.
End insert_ordered.

(** The two orders of thread.c, as relations on thread pages. *)
Definition prio_ge (m : gmap Z thread) (a b : Z) : Prop :=
  priority (page m b) ≤ priority (page m a).

Definition wake_le (m : gmap Z thread) (a b : Z) : Prop :=
  wakeup_tick (page m a) < wakeup_tick (page m b)
  ∨ (wakeup_tick (page m a) = wakeup_tick (page m b)
     ∧ priority (page m b) ≤ priority (page m a)).

Lemma prio_ge_trans m a b c : prio_ge m a b → prio_ge m b c → prio_ge m a c.
Proof. unfold prio_ge. lia. Qed.

Lemma wake_le_trans m a b c : wake_le m a b → wake_le m b c → wake_le m a c.
Proof. unfold wake_le. lia. Qed.

Lemma thread_prio_cmp_true m a b :
  thread_prio_cmp m a b = true →
  a ≠ NULL ∧ b ≠ NULL ∧ priority (page m b) < priority (page m a).
Proof.
  unfold thread_prio_cmp. cbn zeta.
  destruct (a =? NULL) eqn:Ha; [done|]. destruct (b =? NULL) eqn:Hb; [done|].
  cbn [orb]. intros H. apply Z.ltb_lt in H. apply Z.eqb_neq in Ha, Hb. done.
Qed.

Lemma thread_prio_cmp_false m a b :
  a ≠ NULL → b ≠ NULL → thread_prio_cmp m a b = false →
  priority (page m a) ≤ priority (page m b).
Proof.
  unfold thread_prio_cmp. cbn zeta. intros Ha Hb.
  apply Z.eqb_neq in Ha, Hb. rewrite Ha, Hb. cbn [orb].
  intros H. by apply Z.ltb_ge in H.
Qed.

Lemma insert_prio_sorted m x l :
  x ≠ NULL → Forall (λ e, e ≠ NULL) l →
  StronglySorted (prio_ge m) l →
  StronglySorted (prio_ge m) (insert_ordered (thread_prio_cmp m) x l).
Proof.
  apply (insert_ordered_sorted _ (prio_ge m) (λ e, e ≠ NULL)).
  - apply prio_ge_trans.
  - intros a b _ _ H. apply thread_prio_cmp_true in H. unfold prio_ge. lia.
  - intros a b Ha Hb H. by apply thread_prio_cmp_false in H.
Qed.

Lemma insert_wake_sorted m x l :
  StronglySorted (wake_le m) l →
  StronglySorted (wake_le m) (insert_ordered (thread_wakeup_cmp m) x l).
Proof.
  intros Hs.
  apply (insert_ordered_sorted _ (wake_le m) (λ _, True)); try done.
  - apply wake_le_trans.
  - intros a b _ _. unfold thread_wakeup_cmp, wake_le. cbn zeta.
    destruct (wakeup_tick (page m a) =? wakeup_tick (page m b)) eqn:E;
      cbn [negb]; intros H; apply Z.ltb_lt in H.
    + apply Z.eqb_eq in E. lia.
    + lia.
  - intros a b _ _. unfold thread_wakeup_cmp, wake_le. cbn zeta.
    destruct (wakeup_tick (page m a) =? wakeup_tick (page m b)) eqn:E;
      cbn [negb]; intros H; apply Z.ltb_ge in H.
    + apply Z.eqb_eq in E. lia.
    + apply Z.eqb_neq in E. lia.
  - by apply Forall_true.
Qed.

(** A sorted list stays sorted when the keys of its members stay put. *)
Lemma sorted_agree {A} (R R' : relation A) l :
  (∀ a b, a ∈ l → b ∈ l → R a b → R' a b) →
  StronglySorted R l → StronglySorted R' l.
Proof.
  induction l as [|e l IH]; intros H Hs; [constructor|].
  apply StronglySorted_cons in Hs as [Hel Hs].
  apply StronglySorted_cons. split.
  - rewrite Forall_forall in *. intros y Hy.
    apply H; [left | by right | by apply Hel].
  - apply IH; [|done]. intros a b Ha Hb. apply H; by right.
Qed.

(** ** The scheduler invariant *)

(** Every page that is linked on one of the lists. *)
Definition owned (s : sched) : list Z :=
  ready_list s ++ sleep_list s ++ destruction_req s ++ free_pages s.

Record Inv (s : sched) : Prop := mk_Inv {
  inv_ready_sorted : StronglySorted (prio_ge (mem s)) (ready_list s);
  inv_sleep_sorted : StronglySorted (wake_le (mem s)) (sleep_list s);
  inv_nodup : NoDup (running s :: owned s);
  inv_ready : ready_threads (mem s) (ready_list s);
  inv_sleep : blocked_threads (mem s) (sleep_list s);
  inv_running : running_ok s;
  inv_idle : idle_thread s ≠ NULL →
             idle_thread s ∉ sleep_list s ++ destruction_req s ++ free_pages s;
  inv_initial : initial_thread s ∉ destruction_req s ++ free_pages s
}.

Lemma Inv_ext s s' :
  mem s = mem s' → ready_list s = ready_list s' →
  sleep_list s = sleep_list s' → destruction_req s = destruction_req s' →
  free_pages s = free_pages s' → running s = running s' →
  idle_thread s = idle_thread s' → initial_thread s = initial_thread s' →
  Inv s → Inv s'.
Proof.
  destruct s, s'; cbn. intros; subst.
  match goal with H : Inv _ |- _ => destruct H end.
  constructor; done.
Qed.

Lemma is_thread_b_nonnull m t : is_thread_b m t = true → t ≠ NULL.
Proof.
  unfold is_thread_b. intros H. apply andb_prop in H as [H _].
  apply negb_true_iff, Z.eqb_neq in H. done.
Qed.

Lemma ready_threads_nonnull m l :
  ready_threads m l → Forall (λ e, e ≠ NULL) l.
Proof.
  intros H. eapply Forall_impl; [exact H|].
  intros t [Ht _]. by eapply is_thread_b_nonnull.
Qed.

(** Writes that keep the keys keep both orders. *)
Lemma prio_sorted_write m a f l :
  (a ∈ l → priority (f (page m a)) = priority (page m a)) →
  StronglySorted (prio_ge m) l →
  StronglySorted (prio_ge (<[a := f (page m a)]> m)) l.
Proof.
  intros H. apply sorted_agree. intros x y Hx Hy. unfold prio_ge.
  rewrite !page_write. repeat case_decide; subst; rewrite ?H; done.
Qed.

Lemma wake_sorted_write m a f l :
  (a ∈ l → priority (f (page m a)) = priority (page m a)
           ∧ wakeup_tick (f (page m a)) = wakeup_tick (page m a)) →
  StronglySorted (wake_le m) l →
  StronglySorted (wake_le (<[a := f (page m a)]> m)) l.
Proof.
  intros H. apply sorted_agree. intros x y Hx Hy. unfold wake_le.
  rewrite !page_write.
  repeat case_decide; subst;
    try (destruct H as [-> ->]; [done|]); done.
Qed.

Lemma threads_write st m a f l :
  a ∉ l →
  Forall (λ t, is_thread_b m t = true ∧ status (page m t) = st) l →
  Forall (λ t, is_thread_b (<[a := f (page m a)]> m) t = true
               ∧ status (page (<[a := f (page m a)]> m) t) = st) l.
Proof.
  intros Ha. rewrite !Forall_forall. intros H t Ht.
  unfold is_thread_b in *. rewrite page_write.
  rewrite decide_False by (by intros ->). by apply H.
Qed.

Lemma perm_push {A} (a b c d : list A) x :
  a ++ b ++ (c ++ [x]) ++ d ≡ₚ x :: a ++ b ++ c ++ d.
Proof. solve_Permutation. Qed.

Lemma sorted_tail {A} (R : relation A) l :
  StronglySorted R l → StronglySorted R (tail l).
Proof.
  destruct l; [done|]. intros H. by apply StronglySorted_cons in H as [_ H].
Qed.

Lemma Forall_tail {A} (P : A → Prop) l : Forall P l → Forall P (tail l).
Proof. destruct l; [done|]. intros H. by apply Forall_cons in H as [_ H]. Qed.

Lemma next_of_fresh s :
  NoDup (owned s) →
  (idle_thread s ≠ NULL →
   idle_thread s ∉ sleep_list s ++ destruction_req s ++ free_pages s) →
  is_thread_b (mem s) (next_of s) = true →
  NoDup (next_of s :: tail (ready_list s) ++ sleep_list s
           ++ destruction_req s ++ free_pages s).
Proof.
  unfold owned, next_of. intros Hnd Hidle Hth.
  destruct (ready_list s) as [|n r]; cbn [tail app] in *; [|done].
  apply NoDup_cons. split; [|done].
  apply Hidle. by eapply is_thread_b_nonnull.
Qed.

(** A thread that is switched away from while dying is on no list and is
    not the idle thread. *)
Definition dying_unlinked (s : sched) : Prop :=
  stat s (running s) = THREAD_DYING → running s ≠ next_of s →
  (running s ∉ owned s) ∧ running s ≠ idle_thread s.

Lemma switched_Inv s :
  StronglySorted (prio_ge (mem s)) (ready_list s) →
  StronglySorted (wake_le (mem s)) (sleep_list s) →
  NoDup (owned s) →
  ready_threads (mem s) (ready_list s) →
  blocked_threads (mem s) (sleep_list s) →
  is_thread_b (mem s) (next_of s) = true →
  (idle_thread s ≠ NULL →
   idle_thread s ∉ sleep_list s ++ destruction_req s ++ free_pages s) →
  initial_thread s ∉ destruction_req s ++ free_pages s →
  dying_unlinked s →
  Inv (switched s).
Proof.
  intros Hrs Hss Hnd Hrt Hst Hnext Hidle Hinit Hdying.
  pose proof (next_of_fresh s Hnd Hidle Hnext) as Hfresh.
  apply NoDup_cons in Hfresh as [Hn Hfresh].
  assert (Hbase : Inv (with_running (next_of s)
            (with_thread_ticks (λ _, 0)
               (write_thread (next_of s) (set_status THREAD_RUNNING)
                  (with_ready tail s))))).
  { constructor; unfold owned, running_ok; sred.
    - apply prio_sorted_write; [done|]. by apply sorted_tail.
    - by apply wake_sorted_write.
    - by apply NoDup_cons.
    - apply threads_write; [set_solver|]. by apply Forall_tail.
    - apply threads_write; [set_solver|]. done.
    - split; [by rewrite is_thread_b_write | by rewrite page_insert_eq].
    - done.
    - done. }
  unfold switched.
  destruct (running s =? next_of s) eqn:Hcn.
  { apply Z.eqb_eq in Hcn. eapply Inv_ext; [..|exact Hbase]; done. }
  apply Z.eqb_neq in Hcn.
  destruct (negb (running s =? NULL)
            && bool_decide (stat s (running s) = THREAD_DYING)
            && negb (running s =? initial_thread s)) eqn:Hpush; [|done].
  apply andb_prop in Hpush as [Hpush Hni].
  apply andb_prop in Hpush as [_ Hdy].
  apply bool_decide_eq_true in Hdy.
  apply negb_true_iff, Z.eqb_neq in Hni.
  destruct (Hdying Hdy Hcn) as [Hown Hnidle].
  destruct Hbase as [B1 B2 B3 B4 B5 B6 B7 B8].
  unfold owned, running_ok in *.
  sred_in B1; sred_in B2; sred_in B3; sred_in B4; sred_in B5; sred_in B6;
    sred_in B7; sred_in B8.
  constructor; unfold owned, running_ok; sred; try done.
  - apply NoDup_cons in B3 as [B3 B3'].
    apply NoDup_cons. split.
    + rewrite !elem_of_app in *. rewrite list_elem_of_singleton. naive_solver.
    + rewrite perm_push. apply NoDup_cons. split; [|done].
      intros Hin. apply Hown.
      rewrite !elem_of_app in *.
      destruct (ready_list s); cbn [tail] in *; set_solver.
  - intros Hi. specialize (B7 Hi). rewrite !elem_of_app in *.
    rewrite list_elem_of_singleton. naive_solver.
  - rewrite !elem_of_app in *. rewrite list_elem_of_singleton. naive_solver.
Qed.

Lemma Inv_with_level l s : Inv s → Inv (with_level l s).
Proof. apply Inv_ext; done. Qed.

Lemma Inv_of_with_level l s : Inv (with_level l s) → Inv s.
Proof. apply Inv_ext; done. Qed.

Lemma set_status_keys st th :
  priority (set_status st th) = priority th
  ∧ wakeup_tick (set_status st th) = wakeup_tick th.
Proof. done. Qed.

(** [thread_unblock] of a thread that is on none of the lists. *)
Lemma unblocked_Inv t s :
  Inv s → is_thread_b (mem s) t = true → t ∉ running s :: owned s →
  Inv (unblocked t s).
Proof.
  intros [I1 I2 I3 I4 I5 [I6 I6'] I7 I8] Hth Hout.
  unfold owned in *. rewrite not_elem_of_cons, !not_elem_of_app in Hout.
  destruct Hout as (Hr & Hrl & Hsl & Hd & Hf).
  constructor; unfold unblocked, owned, running_ok; sred.
  - apply prio_sorted_write; [done|].
    apply insert_prio_sorted; [by eapply is_thread_b_nonnull| |done].
    by eapply ready_threads_nonnull.
  - by apply wake_sorted_write.
  - rewrite insert_ordered_perm. cbn [app]. rewrite Permutation_swap.
    apply NoDup_cons. split; [|done].
    rewrite not_elem_of_cons, !not_elem_of_app. done.
  - unfold ready_threads. rewrite insert_ordered_perm.
    apply Forall_cons. split.
    + split; [by rewrite is_thread_b_write | by rewrite page_insert_eq].
    + by apply threads_write.
  - by apply threads_write.
  - rewrite is_thread_b_write by done. rewrite page_insert_ne by done. done.
  - done.
  - done.
Qed.

Lemma Inv_pop_sleep s : Inv s → Inv (with_sleep tail s).
Proof.
  intros [I1 I2 I3 I4 I5 I6 I7 I8].
  constructor; unfold owned, running_ok in *; sred; try done.
  - by apply sorted_tail.
  - destruct (sleep_list s) as [|t r]; [done|]. cbn [tail].
    eapply sublist_NoDup; [exact I3|].
    apply sublist_skip, sublist_app; [done|].
    by apply sublist_cons.
  - by apply Forall_tail.
  - intros Hi. specialize (I7 Hi).
    destruct (sleep_list s) as [|t r]; [done|]. cbn [tail]. set_solver.
Qed.

Lemma pop_sleep_fresh s t r :
  Inv s → sleep_list s = t :: r →
  t ∉ running (with_sleep tail s) :: owned (with_sleep tail s).
Proof.
  intros [_ _ I3 _ _ _ _ _] Hsl. unfold owned in *. sred.
  rewrite Hsl in *. cbn [tail].
  apply NoDup_cons in I3 as [I3 I3'].
  rewrite not_elem_of_cons. split; [set_solver|].
  rewrite (Permutation_app_comm (ready_list s)) in I3'.
  cbn in I3'. rewrite <- (assoc_L (++)) in I3'.
  apply NoDup_cons in I3' as [I3' _].
  set_solver.
Qed.

(** Overwriting a page that is neither running nor queued. *)
Lemma Inv_write_outside a v s :
  Inv s → a ∉ running s :: ready_list s ++ sleep_list s →
  Inv (with_mem (λ m, <[a := v]> m) s).
Proof.
  intros [I1 I2 I3 I4 I5 [I6 I6'] I7 I8] Hout.
  rewrite not_elem_of_cons, not_elem_of_app in Hout.
  destruct Hout as (Hr & Hrl & Hsl).
  assert (Hpage : ∀ u, u ≠ a → page (<[a := v]> (mem s)) u = page (mem s) u)
    by (intros; by apply page_insert_ne).
  constructor; unfold owned, running_ok in *; sred; try done.
  - eapply sorted_agree; [|exact I1]. intros x y Hx Hy. unfold prio_ge.
    rewrite !Hpage; [done|by intros ->..].
  - eapply sorted_agree; [|exact I2]. intros x y Hx Hy. unfold wake_le.
    rewrite !Hpage; [done|by intros ->..].
  - unfold ready_threads in *. rewrite Forall_forall in *. intros u Hu.
    unfold is_thread_b in *. rewrite Hpage; [by apply I4|by intros ->].
  - unfold blocked_threads in *. rewrite Forall_forall in *. intros u Hu.
    unfold is_thread_b in *. rewrite Hpage; [by apply I5|by intros ->].
  - unfold is_thread_b in *. by rewrite Hpage.
Qed.

(** A write to the running thread that keeps its status and canary. *)
Lemma Inv_write_running f s :
  Inv s →
  (∀ th, status (f th) = status th ∧ magic (f th) = magic th) →
  Inv (write_thread (running s) f s).
Proof.
  intros [I1 I2 I3 I4 I5 [I6 I6'] I7 I8] Hf.
  unfold owned in *. pose proof I3 as I3c.
  apply NoDup_cons in I3 as [Hout I3'].
  rewrite !not_elem_of_app in Hout. destruct Hout as (Hrl & Hsl & _).
  constructor; unfold owned, running_ok in *; sred; try done.
  - by apply prio_sorted_write.
  - by apply wake_sorted_write.
  - by apply threads_write.
  - by apply threads_write.
  - rewrite is_thread_b_write by apply Hf. rewrite page_insert_eq.
    split; [done|]. by rewrite (proj1 (Hf _)).
Qed.

Lemma perm_drain {A} (x : A) (a b c d : list A) :
  a ++ b ++ [] ++ d ++ c ≡ₚ a ++ b ++ c ++ d.
Proof. solve_Permutation. Qed.

Lemma yielded_Inv s :
  Inv s → is_thread_b (mem s) (next_of (yield_enqueued s)) = true →
  Inv (yielded s).
Proof.
  intros [I1 I2 I3 I4 I5 [I6 I6'] I7 I8] Hnext.
  unfold owned in *. pose proof I3 as I3c.
  apply NoDup_cons in I3 as [Hout I3'].
  rewrite !not_elem_of_app in Hout. destruct Hout as (Hrl & Hsl & Hd & Hf).
  apply Inv_with_level. unfold rescheduled. apply switched_Inv;
    unfold yield_enqueued, drained, dying_unlinked, owned in *;
    destruct (negb (running s =? idle_thread s)); sred.
  - apply prio_sorted_write; [done|].
    apply insert_prio_sorted; [by eapply is_thread_b_nonnull| |done].
    by eapply ready_threads_nonnull.
  - by apply prio_sorted_write.
  - by apply wake_sorted_write.
  - by apply wake_sorted_write.
  - rewrite (perm_drain 0), insert_ordered_perm. done.
  - by rewrite (perm_drain 0).
  - unfold ready_threads. rewrite insert_ordered_perm.
    apply Forall_cons. split.
    + split; [by rewrite is_thread_b_write | by rewrite page_insert_eq].
    + by apply threads_write.
  - by apply threads_write.
  - by apply threads_write.
  - by apply threads_write.
  - rewrite is_thread_b_write by done. exact Hnext.
  - rewrite is_thread_b_write by done. exact Hnext.
  - clear -I7. set_solver.
  - clear -I7. set_solver.
  - clear -I8. set_solver.
  - clear -I8. set_solver.
  - by rewrite page_insert_eq.
  - by rewrite page_insert_eq.
Qed.

Lemma blocked_Inv s :
  Inv s → is_thread_b (mem s) (next_of s) = true →
  Inv (switched (write_thread (running s) (set_status THREAD_BLOCKED) s)).
Proof.
  intros [I1 I2 I3 I4 I5 [I6 I6'] I7 I8] Hnext.
  unfold owned in *. pose proof I3 as I3c.
  apply NoDup_cons in I3 as [Hout I3'].
  rewrite !not_elem_of_app in Hout. destruct Hout as (Hrl & Hsl & Hd & Hf).
  apply switched_Inv; unfold dying_unlinked, owned in *; sred; try done.
  - by apply prio_sorted_write.
  - by apply wake_sorted_write.
  - by apply threads_write.
  - by apply threads_write.
  - by rewrite is_thread_b_write.
  - by rewrite page_insert_eq.
Qed.

Lemma exited_Inv s :
  Inv s → running s ≠ idle_thread s →
  is_thread_b (mem s) (next_of s) = true →
  Inv (rescheduled THREAD_DYING (with_level INTR_OFF s)).
Proof.
  intros [I1 I2 I3 I4 I5 [I6 I6'] I7 I8] Hni Hnext.
  unfold owned in *. pose proof I3 as I3c.
  apply NoDup_cons in I3 as [Hout I3'].
  rewrite !not_elem_of_app in Hout. destruct Hout as (Hrl & Hsl & Hd & Hf).
  unfold rescheduled. apply switched_Inv;
    unfold drained, dying_unlinked, owned in *; sred.
  - by apply prio_sorted_write.
  - by apply wake_sorted_write.
  - by rewrite (perm_drain 0).
  - by apply threads_write.
  - by apply threads_write.
  - by rewrite is_thread_b_write.
  - clear -I7. set_solver.
  - clear -I8. set_solver.
  - intros _ _. split; [|done]. clear -Hrl Hsl Hd Hf. set_solver.
Qed.

Lemma slept_Inv w s :
  Inv s → running s ≠ idle_thread s →
  is_thread_b (mem s) (next_of s) = true →
  Inv (slept w s).
Proof.
  intros [I1 I2 I3 I4 I5 [I6 I6'] I7 I8] Hni Hnext.
  unfold owned in *. pose proof I3 as I3c.
  apply NoDup_cons in I3 as [Hout I3'].
  rewrite !not_elem_of_app in Hout. destruct Hout as (Hrl & Hsl & Hd & Hf).
  apply Inv_with_level. apply switched_Inv;
    unfold sleep_enqueued, dying_unlinked, owned in *; sred.
  - rewrite insert_insert_eq, page_insert_eq.
    apply (prio_sorted_write _ _
             (λ th, set_status THREAD_BLOCKED (set_wakeup_tick w th)));
      done.
  - apply wake_sorted_write; [done|].
    apply insert_wake_sorted. by apply wake_sorted_write.
  - rewrite (Permutation_app_comm (ready_list s)). cbn [app].
    rewrite insert_ordered_perm. cbn [app].
    rewrite <- (Permutation_app_comm (ready_list s)). done.
  - rewrite insert_insert_eq, page_insert_eq.
    by apply (threads_write _ _ _
                (λ th, set_status THREAD_BLOCKED (set_wakeup_tick w th))).
  - unfold blocked_threads. rewrite insert_ordered_perm.
    apply Forall_cons. split.
    + rewrite is_thread_b_write by done. rewrite is_thread_b_write by done.
      by rewrite page_insert_eq.
    + rewrite insert_insert_eq, page_insert_eq.
      by apply (threads_write _ _ _
                  (λ th, set_status THREAD_BLOCKED (set_wakeup_tick w th))).
  - rewrite is_thread_b_write by done. by rewrite is_thread_b_write.
  - intros Hi. specialize (I7 Hi). clear -I7 Hni.
    rewrite !not_elem_of_app in *. rewrite insert_ordered_elem_of.
    set_solver.
  - done.
  - by rewrite page_insert_eq.
Qed.

Lemma take_drop_due now m l : take_due now m l ++ drop_due now m l = l.
Proof.
  induction l as [|t l IH]; cbn; [done|].
  destruct (due now m t); cbn; by rewrite ?IH.
Qed.

Lemma wake_one_Inv s t r :
  Inv s → sleep_list s = t :: r →
  Inv (wake_one s t) ∧ sleep_list (wake_one s t) = r.
Proof.
  intros HI Hsl. split.
  - apply unblocked_Inv.
    + by apply Inv_pop_sleep.
    + destruct HI as [_ _ _ _ I5 _ _ _]. rewrite Hsl in I5.
      apply Forall_cons in I5 as [[I5 _] _]. done.
    + by eapply pop_sleep_fresh.
  - unfold wake_one, unblocked. sred. by rewrite Hsl.
Qed.

Lemma foldl_wake_Inv l : ∀ s r,
  Inv s → sleep_list s = l ++ r →
  Inv (foldl wake_one s l) ∧ sleep_list (foldl wake_one s l) = r.
Proof.
  induction l as [|t l IH]; intros s r HI Hsl; [done|].
  cbn [foldl]. destruct (wake_one_Inv s t (l ++ r) HI Hsl) as [HI' Hsl'].
  by apply IH.
Qed.

Lemma awoken_Inv now s : Inv s → Inv (awoken now s).
Proof.
  intros HI. unfold awoken. apply Inv_with_level.
  destruct (foldl_wake_Inv (take_due now (mem s) (sleep_list s))
              (with_level INTR_OFF s) (drop_due now (mem s) (sleep_list s)))
    as [HI' _].
  - by apply Inv_with_level.
  - sred. by rewrite take_drop_due.
  - destruct (existsb _ _); [|done]. eapply Inv_ext; [..|exact HI']; done.
Qed.

(** The state the loader hands to [thread_init]: interrupts off, a stack
    page that is not in the page pool, no idle thread yet. *)
Definition boot_ready (s : sched) : Prop :=
  level s = INTR_OFF ∧ running s ≠ NULL
  ∧ NoDup (running s :: free_pages s) ∧ idle_thread s = NULL.

Lemma booted_Inv s : boot_ready s → Inv (booted s).
Proof.
  intros (Hl & Hr & Hnd & Hidle).
  constructor; unfold booted, owned, running_ok; sred.
  - constructor.
  - constructor.
  - done.
  - constructor.
  - constructor.
  - unfold is_thread_b. rewrite page_insert_eq. cbn.
    apply Z.eqb_neq in Hr. by rewrite Hr.
  - by rewrite Hidle.
  - by apply NoDup_cons in Hnd as [Hnd _].
Qed.

Lemma Inv_alloc s : Inv s → Inv (with_free tail s).
Proof.
  intros [I1 I2 I3 I4 I5 I6 I7 I8].
  constructor; unfold owned, running_ok in *; sred; try done.
  - eapply sublist_NoDup; [exact I3|].
    apply sublist_skip. do 3 (apply sublist_app; [done|]).
    destruct (free_pages s); [done|]. by apply sublist_cons.
  - intros Hi. specialize (I7 Hi). clear -I7.
    destruct (free_pages s); [done|]. cbn [tail]. set_solver.
  - clear -I8. destruct (free_pages s); [done|]. cbn [tail]. set_solver.
Qed.

Lemma alloc_fresh s t ps :
  Inv s → free_pages s = t :: ps →
  t ∉ running s :: ready_list s ++ sleep_list s ++ destruction_req s ++ ps.
Proof.
  intros [_ _ I3 _ _ _ _ _] Hfp. unfold owned in I3. rewrite Hfp in I3.
  replace (running s :: ready_list s ++ sleep_list s
             ++ destruction_req s ++ t :: ps)
    with ((running s :: ready_list s ++ sleep_list s ++ destruction_req s)
            ++ t :: ps) in I3
    by (cbn; by rewrite <- !(assoc_L (++))).
  rewrite <- Permutation_middle in I3. apply NoDup_cons in I3 as [I3 _].
  cbn in I3. by rewrite <- !(assoc_L (++)) in I3.
Qed.

Lemma spawned_Inv t nm p function aux s ps :
  Inv s → free_pages s = t :: ps → t ≠ NULL →
  Inv (spawned t nm p function aux s).
Proof.
  intros HI Hfp Ht. pose proof (alloc_fresh s t ps HI Hfp) as Hfresh.
  unfold spawned. apply unblocked_Inv.
  - unfold set_up. eapply Inv_ext;
      [..|apply (Inv_write_outside t
                   (spawned_thread t nm p function aux (next_tid s))
                   (with_free tail s))]; try done.
    + by apply Inv_alloc.
    + sred. clear -Hfresh. set_solver.
  - unfold set_up, is_thread_b. sred. rewrite page_insert_eq. cbn.
    apply Z.eqb_neq in Ht. by rewrite Ht.
  - unfold set_up, owned. sred. by rewrite Hfp.
Qed.

(** ** The operations as transitions *)

(** One call of a scheduler entry point that comes back without a panic.
    The side conditions are the callers' discipline: [thread_unblock] is
    handed a thread that its caller has just taken off a wait structure of
    its own, so its [elem] is on none of the scheduler's lists; the idle
    thread runs [for (;;)] and never exits.  The interrupt layer may change
    its own variables at any time. *)
Inductive step : sched → sched → Prop :=
  | step_tick s s' :
      thread_tick s = Ok (tt, s') → step s s'
  | step_create s s' nm p function aux v :
      thread_create nm p function aux s = Ok (v, s') → step s s'
  | step_block s s' :
      thread_block s = Ok (tt, s') → step s s'
  | step_unblock s s' t :
      t ∉ running s :: owned s →
      thread_unblock t s = Ok (tt, s') → step s s'
  | step_yield s s' :
      thread_yield s = Ok (tt, s') → step s s'
  | step_exit s s' :
      running s ≠ idle_thread s →
      thread_exit s = Ok (tt, s') → step s s'
  | step_set_priority s s' p :
      thread_set_priority p s = Ok (tt, s') → step s s'
  | step_sleep s s' w :
      thread_sleep w s = Ok (tt, s') → step s s'
  | step_awake s s' now :
      thread_awake now s = Ok (tt, s') → step s s'
  | step_idle_start s s' :
      idle_start s = Ok (tt, s') → step s s'
  | step_intr s l c y :
      step s (with_level l (with_in_external_intr c
                              (with_yield_on_return y s))).

(** The states the kernel can be in: [thread_init] on the loader's state,
    then any number of calls. *)
Inductive reachable : sched → Prop :=
  | reach_init s0 s :
      boot_ready s0 → thread_init s0 = Ok (tt, s) → reachable s
  | reach_step s s' :
      reachable s → step s s' → reachable s'.

Ltac inv_ok H :=
  repeat match type of H with
         | (if ?b then _ else _) = Ok _ =>
             let E := fresh "E" in destruct b eqn:E; try discriminate H
         | match ?l with [] => _ | _ :: _ => _ end = Ok _ =>
             let E := fresh "E" in destruct l eqn:E; try discriminate H
         end.

Lemma Ok_inj {A} (a b : A) (s s' : sched) :
  Ok (a, s) = Ok (b, s') → a = b ∧ s = s'.
Proof. by intros [= -> ->]. Qed.

Lemma thread_yield_Inv s s' :
  Inv s → thread_yield s = Ok (tt, s') → Inv s'.
Proof.
  intros HI H. rewrite thread_yield_eq in H. inv_ok H.
  apply Ok_inj in H as [_ <-]. by apply yielded_Inv.
Qed.

Lemma create_finish_inv p v s r s' :
  create_finish p v s = Ok (r, s') →
  s' = s ∨ (thread_yield s = Ok (tt, s') ∧ s' = yielded s).
Proof.
  intros H. unfold create_finish in H. unfold bind at 1 in H.
  rewrite thread_current_eq in H.
  destruct (is_thread_b _ _); [|done]. destruct (bool_decide _); [|done].
  unfold bind at 1, load, gets at 1 in H. unfold bind at 1 in H.
  destruct (_ <? p).
  - destruct (thread_yield s) as [[[] s2]| |] eqn:Hy; try done.
    unfold ret in H. apply Ok_inj in H as [_ <-]. right. split; [done|].
    rewrite thread_yield_eq in Hy. inv_ok Hy.
    by apply Ok_inj in Hy as [_ <-].
  - unfold ret in H. apply Ok_inj in H as [_ <-]. by left.
Qed.

Lemma create_finish_Inv p v s r s' :
  Inv s → create_finish p v s = Ok (r, s') → Inv s'.
Proof.
  intros HI H. apply create_finish_inv in H as [->|[H _]]; [done|].
  by eapply thread_yield_Inv.
Qed.

Lemma Inv_sleep_NoDup s : Inv s → NoDup (sleep_list s).
Proof.
  intros [_ _ I3 _ _ _ _ _]. unfold owned in I3.
  apply NoDup_cons in I3 as [_ I3]. apply NoDup_app in I3 as (_ & _ & I3).
  by apply NoDup_app in I3 as (I3 & _ & _).
Qed.

Lemma thread_awake_Inv now s :
  Inv s → thread_awake now s = Ok (tt, awoken now s).
Proof.
  intros HI. apply thread_awake_run.
  - by destruct HI.
  - by apply Inv_sleep_NoDup.
  - by destruct HI.
Qed.

Lemma step_Inv s s' : Inv s → step s s' → Inv s'.
Proof.
  intros HI Hstep. destruct Hstep as
    [s s' H|s s' nm p fn aux v H|s s' H|s s' t Ht H|s s' H|s s' Hni H
    |s s' p H|s s' w H|s s' now H|s s' H|s l c y].
  - rewrite thread_tick_eq in H. inv_ok H. apply Ok_inj in H as [_ <-].
    eapply Inv_ext; [..|exact HI]; unfold ticked;
      destruct (running s =? idle_thread s);
      by destruct (TIME_SLICE <=? _).
  - rewrite thread_create_eq in H. inv_ok H.
    + by apply Ok_inj in H as [_ <-].
    + apply Ok_inj in H as [_ <-].
      pose proof (alloc_fresh s _ _ HI E0) as Hfresh.
      eapply Inv_ext;
        [..|apply (Inv_write_outside z zero_thread (with_free tail s))];
        try done.
      * by apply Inv_alloc.
      * sred. clear -Hfresh. set_solver.
    + eapply create_finish_Inv; [|exact H].
      eapply spawned_Inv; [done..|]. by apply Z.eqb_neq.
  - rewrite thread_block_eq in H. inv_ok H. apply Ok_inj in H as [_ <-].
    by apply blocked_Inv.
  - rewrite thread_unblock_eq in H. inv_ok H. apply Ok_inj in H as [_ <-].
    by apply unblocked_Inv.
  - by eapply thread_yield_Inv.
  - rewrite thread_exit_eq in H. inv_ok H. apply Ok_inj in H as [_ <-].
    by apply exited_Inv.
  - rewrite thread_set_priority_eq in H. cbn zeta in H.
    assert (HI1 : Inv (write_thread (running s) (set_priority p) s))
      by (by apply Inv_write_running).
    inv_ok H.
    + by apply Ok_inj in H as [_ <-].
    + by eapply thread_yield_Inv.
    + by apply Ok_inj in H as [_ <-].
  - rewrite thread_sleep_eq in H. inv_ok H.
    + by apply Ok_inj in H as [_ <-].
    + apply Ok_inj in H as [_ <-]. apply slept_Inv; [done| |done].
      by apply Z.eqb_neq.
  - rewrite thread_awake_Inv in H by done.
    apply Ok_inj in H as [_ <-]. by apply awoken_Inv.
  - rewrite idle_start_eq in H. inv_ok H. apply Ok_inj in H as [_ <-].
    destruct HI as [I1 I2 I3 I4 I5 I6 I7 I8].
    constructor; unfold owned, running_ok in *; sred; try done.
    intros _. apply NoDup_cons in I3 as [I3 _]. clear -I3. set_solver.
  - eapply Inv_ext; [..|exact HI]; done.
Qed.

Lemma reachable_Inv s : reachable s → Inv s.
Proof.
  induction 1 as [s0 s Hb H|s s' _ IH Hstep].
  - rewrite thread_init_eq in H. inv_ok H. apply Ok_inj in H as [_ <-].
    by apply booted_Inv.
  - by eapply step_Inv.
Qed.

(** ** A concrete run

    The loader's state, with the boot stack in page 4096 and four free
    pages, and the states of a run from it: start-up as in [thread_start],
    two workers, then either three sleepers or an exit. *)
Definition ex_boot : sched :=
  {| mem := ∅; ready_list := []; sleep_list := []; idle_thread := NULL;
     initial_thread := NULL; destruction_req := []; idle_ticks := 0;
     kernel_ticks := 0; user_ticks := 0; thread_ticks := 0; next_tid := 1;
     running := 4096; level := INTR_OFF; in_external_intr := false;
     yield_on_return := false;
     free_pages := [8192; 12288; 16384; 20480] |}.

Definition blocked_now (s : sched) : sched :=
  switched (write_thread (running s) (set_status THREAD_BLOCKED) s).

(** [thread_init]: "main" runs. *)
Definition ex_main : sched := booted ex_boot.
(** [thread_create ("idle", PRI_MIN, ...)]. *)
Definition ex_idle_made : sched := spawned 8192 "idle" PRI_MIN 1 0 ex_main.
(** "main" blocks in [sema_down]: "idle" runs. *)
Definition ex_main_waits : sched := blocked_now ex_idle_made.
(** [idle_thread = thread_current ()]. *)
Definition ex_idle_set : sched := with_idle_thread 8192 ex_main_waits.
(** [sema_up] unblocks "main". *)
Definition ex_main_woken : sched := unblocked 4096 ex_idle_set.
(** "idle" blocks: "main" runs again; interrupts come back on. *)
Definition ex_started : sched := with_level INTR_ON (blocked_now ex_main_woken).
(** Two workers of the priority of "main": ready queue "a", "b". *)
Definition ex_a : sched := spawned 12288 "a" 31 1 0 ex_started.
Definition ex_ab : sched := spawned 16384 "b" 31 1 0 ex_a.

(** Sleepers: "main" until tick 50, "a" until 10, "b" until 30; then "idle"
    runs and the sleep queue is "a", "b", "main". *)
Definition ex_sleep1 : sched := slept 50 ex_ab.
Definition ex_sleep2 : sched := slept 10 ex_sleep1.
Definition ex_asleep : sched := slept 30 ex_sleep2.

(** An exit: "main" yields, "a" runs and exits, "b" runs with "a" on the
    destruction list; then "b" blocks and "main" runs. *)
Definition ex_a_runs : sched := yielded ex_ab.
Definition ex_a_dead : sched :=
  rescheduled THREAD_DYING (with_level INTR_OFF ex_a_runs).
Definition ex_b_blocked : sched := blocked_now ex_a_dead.

(** The initial thread exits: "a" runs. *)
Definition ex_main_dead : sched :=
  rescheduled THREAD_DYING (with_level INTR_OFF ex_ab).

Lemma ex_boot_ready : boot_ready ex_boot.
Proof.
  repeat split; try done.
  refine (bool_decide_unpack _ _). by vm_compute.
Qed.

Lemma ex_main_run : thread_init ex_boot = Ok (tt, ex_main).
Proof. by vm_compute. Qed.

Lemma ex_idle_made_run :
  thread_create "idle" PRI_MIN 1 0 ex_main = Ok (2, ex_idle_made).
Proof. by vm_compute. Qed.

Lemma ex_main_waits_run : thread_block ex_idle_made = Ok (tt, ex_main_waits).
Proof. by vm_compute. Qed.

Lemma ex_idle_set_run : idle_start ex_main_waits = Ok (tt, ex_idle_set).
Proof. by vm_compute. Qed.

Lemma ex_main_woken_run :
  thread_unblock 4096 ex_idle_set = Ok (tt, ex_main_woken).
Proof. by vm_compute. Qed.

Lemma ex_idle_blocks_run :
  thread_block ex_main_woken = Ok (tt, blocked_now ex_main_woken).
Proof. by vm_compute. Qed.

Lemma ex_a_run : thread_create "a" 31 1 0 ex_started = Ok (3, ex_a).
Proof. by vm_compute. Qed.

Lemma ex_ab_run : thread_create "b" 31 1 0 ex_a = Ok (4, ex_ab).
Proof. by vm_compute. Qed.

Lemma ex_sleep1_run : thread_sleep 50 ex_ab = Ok (tt, ex_sleep1).
Proof. by vm_compute. Qed.

Lemma ex_sleep2_run : thread_sleep 10 ex_sleep1 = Ok (tt, ex_sleep2).
Proof. by vm_compute. Qed.

Lemma ex_asleep_run : thread_sleep 30 ex_sleep2 = Ok (tt, ex_asleep).
Proof. by vm_compute. Qed.

Lemma ex_a_runs_run : thread_yield ex_ab = Ok (tt, ex_a_runs).
Proof. by vm_compute. Qed.

Lemma ex_a_dead_run : thread_exit ex_a_runs = Ok (tt, ex_a_dead).
Proof. by vm_compute. Qed.

Lemma ex_b_blocked_run : thread_block ex_a_dead = Ok (tt, ex_b_blocked).
Proof. by vm_compute. Qed.

Lemma ex_main_dead_run : thread_exit ex_ab = Ok (tt, ex_main_dead).
Proof. by vm_compute. Qed.

Lemma ex_main_reachable : reachable ex_main.
Proof. eapply reach_init; [apply ex_boot_ready | apply ex_main_run]. Qed.

Lemma ex_idle_set_reachable : reachable ex_idle_set.
Proof.
  eapply reach_step; [|apply step_idle_start, ex_idle_set_run].
  eapply reach_step; [|apply step_block, ex_main_waits_run].
  eapply reach_step; [|eapply step_create, ex_idle_made_run].
  apply ex_main_reachable.
Qed.

Lemma ex_started_reachable : reachable ex_started.
Proof.
  replace ex_started
    with (with_level INTR_ON
            (with_in_external_intr false
               (with_yield_on_return false (blocked_now ex_main_woken))))
    by (by vm_compute).
  eapply reach_step; [|apply step_intr].
  eapply reach_step; [|apply step_block, ex_idle_blocks_run].
  eapply reach_step;
    [|apply (step_unblock _ _ 4096); [|apply ex_main_woken_run]].
  2:{ apply (bool_decide_unpack _). by vm_compute. }
  apply ex_idle_set_reachable.
Qed.

Lemma ex_ab_reachable : reachable ex_ab.
Proof.
  eapply reach_step; [|eapply step_create, ex_ab_run].
  eapply reach_step; [|eapply step_create, ex_a_run].
  apply ex_started_reachable.
Qed.

Lemma ex_asleep_reachable : reachable ex_asleep.
Proof.
  eapply reach_step; [|eapply step_sleep, ex_asleep_run].
  eapply reach_step; [|eapply step_sleep, ex_sleep2_run].
  eapply reach_step; [|eapply step_sleep, ex_sleep1_run].
  apply ex_ab_reachable.
Qed.

Lemma ex_a_runs_reachable : reachable ex_a_runs.
Proof.
  eapply reach_step; [apply ex_ab_reachable|].
  apply step_yield. apply ex_a_runs_run.
Qed.

Lemma ex_a_dead_reachable : reachable ex_a_dead.
Proof.
  eapply reach_step; [apply ex_a_runs_reachable|].
  apply step_exit; [by vm_compute | apply ex_a_dead_run].
Qed.

(** ** The ready queue *)

(** [l'] is [l] with [x] put behind every member of priority at least that
    of [x] and in front of every member of lower priority; the members of
    [l] keep their order. *)
Definition fifo_insert (m : gmap Z thread) (x : Z) (l l' : list Z) : Prop :=
  ∃ l1 l2, l = l1 ++ l2 ∧ l' = l1 ++ x :: l2
    ∧ Forall (λ e, priority (page m x) ≤ priority (page m e)) l1
    ∧ Forall (λ e, priority (page m e) < priority (page m x)) l2.

Lemma insert_prio_fifo m x l :
  x ≠ NULL → Forall (λ e, e ≠ NULL) l →
  StronglySorted (prio_ge m) l →
  fifo_insert m x l (insert_ordered (thread_prio_cmp m) x l).
Proof.
  intros Hx Hl Hs.
  destruct (insert_ordered_split (thread_prio_cmp m) x l)
    as (l1 & l2 & -> & Hi & H1 & H2).
  exists l1, l2. split; [done|]. split; [done|].
  apply Forall_app in Hl as [Hl1 Hl2].
  apply StronglySorted_app in Hs as (_ & _ & Hs2). split.
  - rewrite Forall_forall in *. intros e He.
    apply thread_prio_cmp_false; [done|by apply Hl1|by apply H1].
  - destruct l2 as [|e0 l2]; [constructor|].
    specialize (H2 e0 eq_refl). apply thread_prio_cmp_true in H2.
    apply StronglySorted_cons in Hs2 as [Hs2 _].
    constructor; [lia|].
    eapply Forall_impl; [exact Hs2|]. unfold prio_ge. intros e He. lia.
Qed.

Lemma unblocked_sorted t s :
  Inv s → is_thread_b (mem s) t = true →
  StronglySorted (prio_ge (mem (unblocked t s))) (ready_list (unblocked t s)).
Proof.
  intros [I1 _ _ I4 _ _ _ _] Hth. unfold unblocked. sred.
  apply prio_sorted_write; [done|].
  apply insert_prio_sorted; [by eapply is_thread_b_nonnull| |done].
  by eapply ready_threads_nonnull.
Qed.

Lemma ready_list_switched s : ready_list (switched s) = tail (ready_list s).
Proof.
  unfold switched. destruct (_ =? _); [done|]. by destruct (_ && _ && _).
Qed.

Lemma ready_list_yielded s :
  ready_list (yielded s) = tail (ready_list (yield_enqueued s)).
Proof. unfold yielded, rescheduled. sred. by rewrite ready_list_switched. Qed.

(** C1: in every reachable state the ready queue is sorted by non-increasing
    priority; [thread_unblock] and [thread_yield], the operations that
    insert into it, put the thread behind the queued threads of equal (or
    higher) priority and in front of those of lower priority, keep the order
    of the others, and leave the queue sorted. *)
Theorem C1_ready_queue_sorted_fifo s :
  reachable s →
  StronglySorted (prio_ge (mem s)) (ready_list s)
  ∧ (∀ t s', thread_unblock t s = Ok (tt, s') →
       fifo_insert (mem s) t (ready_list s) (ready_list s')
       ∧ StronglySorted (prio_ge (mem s')) (ready_list s'))
  ∧ (∀ s', thread_yield s = Ok (tt, s') →
       (∃ q, (if running s =? idle_thread s then q = ready_list s
              else fifo_insert (mem s) (running s) (ready_list s) q)
             ∧ ready_list s' = tail q)
       ∧ StronglySorted (prio_ge (mem s')) (ready_list s')).
Proof.
  intros Hreach. pose proof (reachable_Inv s Hreach) as HI.
  split; [by destruct HI|]. split.
  - intros t s' H. rewrite thread_unblock_eq in H. inv_ok H.
    apply Ok_inj in H as [_ <-]. split; [|by apply unblocked_sorted].
    unfold unblocked. sred. destruct HI as [I1 _ _ I4 _ _ _ _].
    apply insert_prio_fifo; [by eapply is_thread_b_nonnull| |done].
    by eapply ready_threads_nonnull.
  - intros s' H. split.
    + rewrite thread_yield_eq in H. inv_ok H. apply Ok_inj in H as [_ <-].
      exists (ready_list (yield_enqueued s)).
      split; [|apply ready_list_yielded].
      unfold yield_enqueued. destruct (running s =? idle_thread s); [done|].
      sred. destruct HI as [I1 _ _ I4 _ _ _ _].
      apply insert_prio_fifo; [by eapply is_thread_b_nonnull| |done].
      by eapply ready_threads_nonnull.
    + by destruct (thread_yield_Inv s s' HI H).
Qed.

Lemma C1_witness :
  reachable ex_ab
  ∧ StronglySorted (prio_ge (mem ex_ab)) (ready_list ex_ab).
Proof.
  split; [apply ex_ab_reachable|].
  exact (proj1 (C1_ready_queue_sorted_fifo ex_ab ex_ab_reachable)).
Defined.

(** ** The sleep queue *)

Lemma sleep_list_switched s : sleep_list (switched s) = sleep_list s.
Proof.
  unfold switched. destruct (_ =? _); [done|]. by destruct (_ && _ && _).
Qed.

Lemma mem_switched s :
  mem (switched s)
  = <[next_of s := set_status THREAD_RUNNING (page (mem s) (next_of s))]>
      (mem s).
Proof.
  unfold switched. destruct (_ =? _); [done|]. by destruct (_ && _ && _).
Qed.

Lemma page_write_field {A} (field : thread → A) f m a u :
  (∀ th, field (f th) = field th) →
  field (page (<[a := f (page m a)]> m) u) = field (page m u).
Proof. intros H. rewrite page_write. case_decide; by subst. Qed.

Lemma mem_slept_keys w s u :
  priority (page (mem (slept w s)) u) = priority (page (mem s) u)
  ∧ wakeup_tick (page (mem (slept w s)) u)
    = if decide (u = running s) then w else wakeup_tick (page (mem s) u).
Proof.
  unfold slept. sred. rewrite mem_switched. unfold sleep_enqueued. sred.
  rewrite !(page_write_field priority) by done.
  rewrite !(page_write_field wakeup_tick (set_status _)) by done.
  split; [done|]. rewrite page_write.
  case_decide; subst; [by rewrite decide_True | by rewrite decide_False].
Qed.

(** C2: in every reachable state the sleep queue is sorted by non-decreasing
    wake tick and, among equal wake ticks, by non-increasing priority;
    [thread_sleep] records the wake tick, inserts the caller without
    disturbing the order of the others, and leaves the queue sorted. *)
Theorem C2_sleep_queue_sorted s :
  reachable s →
  StronglySorted (wake_le (mem s)) (sleep_list s)
  ∧ (∀ w s', thread_sleep w s = Ok (tt, s') →
       StronglySorted (wake_le (mem s')) (sleep_list s')
       ∧ (running s ≠ idle_thread s →
          wake s' (running s) = w
          ∧ ∃ l1 l2, sleep_list s = l1 ++ l2
                     ∧ sleep_list s' = l1 ++ running s :: l2)).
Proof.
  intros Hreach. pose proof (reachable_Inv s Hreach) as HI.
  split; [by destruct HI|].
  intros w s' H.
  assert (HI' : Inv s') by (eapply step_Inv; [exact HI|by eapply step_sleep]).
  split; [by destruct HI'|].
  intros Hni. rewrite thread_sleep_eq in H. inv_ok H.
  { by apply Z.eqb_eq in E1. }
  apply Ok_inj in H as [_ <-]. split.
  - destruct (mem_slept_keys w s (running s)) as [_ ->].
    by rewrite decide_True.
  - unfold slept. sred. rewrite sleep_list_switched.
    unfold sleep_enqueued. sred.
    destruct (insert_ordered_split
                (thread_wakeup_cmp
                   (<[running s := set_wakeup_tick w (page (mem s) (running s))]>
                      (mem s)))
                (running s) (sleep_list s)) as (l1 & l2 & Hl & Hi & _).
    exists l1, l2. done.
Qed.

Lemma C2_witness :
  reachable ex_asleep
  ∧ StronglySorted (wake_le (mem ex_asleep)) (sleep_list ex_asleep).
Proof.
  split; [apply ex_asleep_reachable|].
  exact (proj1 (C2_sleep_queue_sorted ex_asleep ex_asleep_reachable)).
Defined.

(** ** Waking the sleepers that are due *)

Lemma insert_ordered_ext {A} (less less' : A → A → bool) x l :
  (∀ a b, less a b = less' a b) →
  insert_ordered less x l = insert_ordered less' x l.
Proof.
  intros H. induction l as [|e l IH]; cbn; [done|]. by rewrite H, IH.
Qed.

Lemma thread_prio_cmp_ext m m' a b :
  (∀ u, priority (page m' u) = priority (page m u)) →
  thread_prio_cmp m' a b = thread_prio_cmp m a b.
Proof. intros H. unfold thread_prio_cmp. by rewrite !H. Qed.

Lemma filter_none {A} (P : A → Prop) `{∀ x, Decision (P x)} l :
  Forall (λ x, ¬ P x) l → filter P l = [].
Proof.
  induction 1 as [|x l Hx _ IH]; [done|]. by rewrite filter_cons_False.
Qed.

Lemma filter_all {A} (P : A → Prop) `{∀ x, Decision (P x)} l :
  Forall P l → filter P l = l.
Proof.
  induction 1 as [|x l Hx _ IH]; [done|].
  rewrite filter_cons_True by done. by rewrite IH.
Qed.

(** In a sorted sleep queue the due entries are exactly a prefix. *)
Lemma take_due_filter now m l :
  StronglySorted (wake_le m) l →
  take_due now m l = filter (λ t, wakeup_tick (page m t) ≤ now) l
  ∧ drop_due now m l = filter (λ t, ¬ wakeup_tick (page m t) ≤ now) l.
Proof.
  induction l as [|t l IH]; intros Hs; [done|].
  apply StronglySorted_cons in Hs as [Htl Hs]. destruct (IH Hs) as [IH1 IH2].
  cbn [take_due drop_due]. unfold due.
  destruct (wakeup_tick (page m t) <=? now) eqn:Hd.
  - apply Z.leb_le in Hd.
    rewrite filter_cons_True by done. rewrite filter_cons_False by tauto.
    by rewrite IH1, IH2.
  - apply Z.leb_gt in Hd.
    rewrite filter_cons_False by lia. rewrite filter_cons_True by lia.
    assert (Hall : Forall (λ e, ¬ wakeup_tick (page m e) ≤ now) l).
    { eapply Forall_impl; [exact Htl|]. unfold wake_le. intros e He. lia. }
    split.
    + symmetry. apply filter_none. done.
    + f_equal. symmetry. by apply filter_all.
Qed.

Definition insert_all (m : gmap Z thread) (q l : list Z) : list Z :=
  foldl (λ q t, insert_ordered (thread_prio_cmp m) t q) q l.

Lemma insert_all_elem_of m l : ∀ q t,
  t ∈ insert_all m q l ↔ t ∈ l ∨ t ∈ q.
Proof.
  unfold insert_all.
  induction l as [|x l IH]; intros q t; cbn [foldl]; [set_solver|].
  rewrite IH, insert_ordered_elem_of. set_solver.
Qed.

Lemma foldl_wake_spec l : ∀ s,
  running (foldl wake_one s l) = running s
  ∧ yield_on_return (foldl wake_one s l) = yield_on_return s
  ∧ level (foldl wake_one s l) = level s
  ∧ (∀ u, priority (page (mem (foldl wake_one s l)) u)
          = priority (page (mem s) u))
  ∧ (∀ u, status (page (mem (foldl wake_one s l)) u)
          = if decide (u ∈ l) then THREAD_READY else status (page (mem s) u))
  ∧ ready_list (foldl wake_one s l) = insert_all (mem s) (ready_list s) l.
Proof.
  induction l as [|t l IH]; intros s; cbn [foldl].
  { by repeat split. }
  destruct (IH (wake_one s t)) as (H1 & H2 & H3 & H4 & H5 & H6).
  assert (Hprio : ∀ u, priority (page (mem (wake_one s t)) u)
                       = priority (page (mem s) u)).
  { intros u. rewrite wake_one_page. by case_decide; subst. }
  repeat split.
  - by rewrite H1.
  - by rewrite H2.
  - by rewrite H3.
  - intros u. by rewrite H4.
  - intros u. rewrite H5, wake_one_page.
    destruct (decide (u ∈ l)) as [Hu|Hu].
    + rewrite decide_True; [done|by right].
    + destruct (decide (t = u)) as [->|Hne].
      * rewrite decide_True; [done|by left].
      * rewrite decide_False; [done|]. set_solver.
  - rewrite H6. unfold insert_all. cbn [foldl].
    change (ready_list (wake_one s t))
      with (insert_ordered (thread_prio_cmp (mem s)) t (ready_list s)).
    generalize (insert_ordered (thread_prio_cmp (mem s)) t (ready_list s)).
    clear -Hprio. induction l as [|x l IH]; intros q; cbn [foldl]; [done|].
    rewrite IH. f_equal. apply insert_ordered_ext. intros a b.
    by apply thread_prio_cmp_ext.
Qed.

(** C3: [thread_awake (now_tick)] in a reachable state returns; it removes
    from the sleep queue exactly the entries whose wake tick is at most
    [now_tick], which are a prefix of the queue (the scan stops at the first
    entry not yet due), and unblocks them front to back into the ready
    queue; it asks for a yield on interrupt return if and only if a woken
    thread has a priority strictly above that of the running thread; the
    running thread is the same before and after, so no switch took place. *)
Theorem C3_thread_awake now s :
  reachable s →
  let woken := filter (λ t, wake s t ≤ now) (sleep_list s) in
  ∃ s', thread_awake now s = Ok (tt, s')
    ∧ sleep_list s = woken ++ sleep_list s'
    ∧ sleep_list s' = filter (λ t, ¬ wake s t ≤ now) (sleep_list s)
    ∧ (∀ t, t ∈ woken → stat s' t = THREAD_READY ∧ t ∈ ready_list s')
    ∧ (∀ t, t ∉ woken → stat s' t = stat s t)
    ∧ ready_list s' = insert_all (mem s) (ready_list s) woken
    ∧ (∃ s1, awake_loop (S (length (sleep_list s))) now false
               (with_level INTR_OFF s)
             = Ok (existsb (λ t, prio s (running s) <? prio s t) woken, s1))
    ∧ yield_on_return s'
      = yield_on_return s
        || existsb (λ t, prio s (running s) <? prio s t) woken
    ∧ running s' = running s
    ∧ stat s' (running s') = THREAD_RUNNING.
Proof.
  intros Hreach woken. pose proof (reachable_Inv s Hreach) as HI.
  exists (awoken now s). split; [by apply thread_awake_Inv|].
  destruct (take_due_filter now (mem s) (sleep_list s)) as [Htake Hdrop];
    [by destruct HI|].
  fold woken in Htake.
  destruct (foldl_wake_Inv woken (with_level INTR_OFF s)
              (drop_due now (mem s) (sleep_list s)))
    as [HI' Hsl'].
  { by apply Inv_with_level. }
  { sred. by rewrite <- Htake, take_drop_due. }
  destruct (foldl_wake_spec woken (with_level INTR_OFF s))
    as (H1 & H2 & H3 & H4 & H5 & H6).
  sred_in H1; sred_in H2; sred_in H3; sred_in H4; sred_in H5; sred_in H6.
  assert (Hsleep : sleep_list (awoken now s)
                   = drop_due now (mem s) (sleep_list s)).
  { unfold awoken. rewrite Htake. by destruct (existsb _ _). }
  assert (Hmem : mem (awoken now s)
                 = mem (foldl wake_one (with_level INTR_OFF s) woken)).
  { unfold awoken. rewrite Htake. by destruct (existsb _ _). }
  assert (Hready : ready_list (awoken now s)
                   = insert_all (mem s) (ready_list s) woken).
  { unfold awoken. rewrite Htake. by destruct (existsb _ _). }
  assert (Hrun : running (awoken now s) = running s).
  { unfold awoken. rewrite Htake. by destruct (existsb _ _). }
  repeat split.
  - rewrite Hsleep, <- Htake. by rewrite take_drop_due.
  - by rewrite Hsleep.
  - rewrite Hmem, H5. by rewrite decide_True.
  - rewrite Hready. apply insert_all_elem_of. by left.
  - intros t Ht. rewrite Hmem, H5. by rewrite decide_False.
  - done.
  - eexists. rewrite awake_loop_run; sred.
    + rewrite Htake. cbn [orb]. reflexivity.
    + lia.
    + by destruct HI.
    + by apply Inv_sleep_NoDup.
    + by destruct HI.
  - unfold awoken. rewrite Htake. unfold outranks.
    destruct (existsb _ _); sred; [by rewrite orb_true_r|].
    by rewrite H2, orb_false_r.
  - done.
  - rewrite Hrun, Hmem, H5.
    rewrite decide_False; [by destruct HI as [_ _ _ _ _ [_ ?] _ _]|].
    unfold woken. rewrite list_elem_of_filter. intros [_ Hin].
    destruct HI as [_ _ I3 _ _ _ _ _]. apply NoDup_cons in I3 as [I3 _].
    unfold owned in I3. clear -I3 Hin. set_solver.
Qed.

Lemma C3_witness :
  reachable ex_asleep
  ∧ ∃ s', thread_awake 10 ex_asleep = Ok (tt, s')
          ∧ sleep_list s' = [16384; 4096] ∧ yield_on_return s' = true.
Proof.
  split; [apply ex_asleep_reachable|].
  destruct (C3_thread_awake 10 ex_asleep ex_asleep_reachable)
    as (s' & Hrun & _ & Hsl & _ & _ & _ & _ & Hy & _).
  exists s'. split; [exact Hrun|]. split.
  - rewrite Hsl. by vm_compute.
  - rewrite Hy. by vm_compute.
Defined.

(** ** [thread_unblock] *)

(** C5: [thread_unblock (t)] panics unless [t] is blocked; on a blocked
    thread it returns, having put [t] into the ready queue behind the
    threads of equal or higher priority and in front of those of lower
    priority, and having set its status to ready; the running thread, the
    interrupt level and the yield-on-return flag are as before, so the
    caller is neither switched out nor asked to yield. *)
Theorem C5_thread_unblock t s :
  (stat s t ≠ THREAD_BLOCKED → ∃ msg, thread_unblock t s = Panic msg)
  ∧ (reachable s → is_thread_b (mem s) t = true →
     stat s t = THREAD_BLOCKED →
     ∃ s', thread_unblock t s = Ok (tt, s')
       ∧ fifo_insert (mem s) t (ready_list s) (ready_list s')
       ∧ stat s' t = THREAD_READY
       ∧ (∀ u, u ≠ t → thread_at s' u = thread_at s u)
       ∧ prio s' t = prio s t
       ∧ running s' = running s
       ∧ level s' = level s
       ∧ yield_on_return s' = yield_on_return s
       ∧ sleep_list s' = sleep_list s
       ∧ destruction_req s' = destruction_req s).
Proof.
  split.
  - intros Hst. rewrite thread_unblock_eq.
    destruct (is_thread_b (mem s) t); [|by eexists].
    rewrite bool_decide_eq_false_2 by done. by eexists.
  - intros Hreach Hth Hst. pose proof (reachable_Inv s Hreach) as HI.
    exists (unblocked t s). rewrite thread_unblock_eq, Hth.
    rewrite bool_decide_eq_true_2 by done.
    unfold unblocked. sred. repeat split; try done.
    + destruct HI as [I1 _ _ I4 _ _ _ _].
      apply insert_prio_fifo; [by eapply is_thread_b_nonnull| |done].
      by eapply ready_threads_nonnull.
    + by rewrite page_insert_eq.
    + intros u Hu. by rewrite page_insert_ne.
    + by rewrite page_insert_eq.
Qed.

Lemma C5_witness :
  (reachable ex_idle_set ∧ is_thread_b (mem ex_idle_set) 4096 = true
   ∧ stat ex_idle_set 4096 = THREAD_BLOCKED)
  ∧ ∃ s', thread_unblock 4096 ex_idle_set = Ok (tt, s')
          ∧ running s' = running ex_idle_set.
Proof.
  assert (H1 : is_thread_b (mem ex_idle_set) 4096 = true) by (by vm_compute).
  assert (H2 : stat ex_idle_set 4096 = THREAD_BLOCKED) by (by vm_compute).
  split; [by split; [apply ex_idle_set_reachable|]|].
  destruct (proj2 (C5_thread_unblock 4096 ex_idle_set)
              ex_idle_set_reachable H1 H2)
    as (s' & Hrun & _ & _ & _ & _ & Hr & _).
  by exists s'.
Defined.

(** ** [thread_create] *)

Lemma thread_yield_total s :
  Inv s → in_external_intr s = false → thread_yield s = Ok (tt, yielded s).
Proof.
  intros [_ _ _ I4 _ [I6 I6'] _ _] Hc. rewrite thread_yield_eq.
  rewrite I6, bool_decide_eq_true_2, Hc by done. cbn [negb].
  assert (Hn : is_thread_b (mem s) (next_of (yield_enqueued s)) = true);
    [|by rewrite Hn].
  unfold yield_enqueued, next_of.
  destruct (running s =? idle_thread s) eqn:Hidle; cbn [negb]; sred.
  - apply Z.eqb_eq in Hidle. destruct (ready_list s) as [|n r] eqn:Hr.
    + by rewrite <- Hidle.
    + by apply Forall_cons in I4 as [[I4 _] _].
  - destruct (insert_ordered _ _ _) as [|n r] eqn:Hins.
    + pose proof (insert_ordered_perm (thread_prio_cmp (mem s)) (running s)
                    (ready_list s)) as Hp.
      rewrite Hins in Hp. by apply Permutation_nil_cons in Hp.
    + assert (Hin : n ∈ insert_ordered (thread_prio_cmp (mem s)) (running s)
                      (ready_list s)) by (rewrite Hins; by left).
      apply insert_ordered_elem_of in Hin as [->|Hin]; [done|].
      unfold ready_threads in I4. rewrite Forall_forall in I4.
      by destruct (I4 n Hin).
Qed.

(** C9: with no free page (and a function to run, which [thread_create]
    asserts before it allocates) [thread_create] returns [TID_ERROR] and the
    state is the one it was called in: no tid is taken, no list and no page
    is touched. *)
Theorem C9_thread_create_no_memory nm p function aux s :
  function ≠ NULL → free_pages s = [] →
  palloc_get_page s = Ok (NULL, s)
  ∧ thread_create nm p function aux s = Ok (TID_ERROR, s).
Proof.
  intros Hf Hfp. split.
  - unfold palloc_get_page. by rewrite Hfp.
  - rewrite thread_create_eq, Hfp. apply Z.eqb_neq in Hf. by rewrite Hf.
Qed.

(** A third worker takes the last free page. *)
Definition ex_full : sched := spawned 20480 "c" 31 1 0 ex_ab.

Lemma ex_full_run : thread_create "c" 31 1 0 ex_ab = Ok (5, ex_full).
Proof. by vm_compute. Qed.

Lemma C9_witness :
  (1 ≠ NULL ∧ free_pages ex_full = [])
  ∧ thread_create "d" 31 1 0 ex_full = Ok (TID_ERROR, ex_full).
Proof.
  split; [done|].
  by apply (C9_thread_create_no_memory "d" 31 1 0 ex_full).
Defined.

(** Without a function to run the assertion fires first, memory or not. *)
Example thread_create_null_function nm p aux s :
  thread_create nm p NULL aux s = Panic "function != NULL".
Proof. by rewrite thread_create_eq. Qed.

Lemma create_finish_run p v s :
  Inv s → in_external_intr s = false →
  create_finish p v s
  = Ok (v, if prio s (running s) <? p then yielded s else s).
Proof.
  intros HI Hc. unfold create_finish. unfold bind at 1.
  rewrite thread_current_eq.
  destruct HI as [I1 I2 I3 I4 I5 [I6 I6'] I7 I8].
  rewrite I6, bool_decide_eq_true_2 by done.
  unfold bind at 1, load, gets at 1. unfold bind at 1.
  destruct (_ <? p); [|done].
  by rewrite thread_yield_total.
Qed.

(** C4: a call of [thread_create] that finds a free page [t] (with a
    function to run, a priority in range, outside interrupt context)
    returns the new tid.  [init_thread] leaves the new thread blocked, it is
    still blocked when [thread_unblock] is called, which makes it ready and
    puts it on the ready queue; then the caller yields exactly when the new
    priority is strictly above its own, and [thread_create] returns. *)
Theorem C4_thread_create nm p function aux s t ps :
  reachable s → function ≠ NULL → PRI_MIN ≤ p ≤ PRI_MAX →
  free_pages s = t :: ps → t ≠ NULL → in_external_intr s = false →
  let s_new := set_up t nm p function aux s in
  let s_rdy := spawned t nm p function aux s in
  (∃ s_a s_i, palloc_get_page s = Ok (t, s_a)
              ∧ init_thread t nm p s_a = Ok (tt, s_i)
              ∧ stat s_i t = THREAD_BLOCKED)
  ∧ stat s_new t = THREAD_BLOCKED
  ∧ thread_unblock t s_new = Ok (tt, s_rdy)
  ∧ stat s_rdy t = THREAD_READY
  ∧ t ∈ ready_list s_rdy
  ∧ prio s_rdy t = p
  ∧ running s_rdy = running s
  ∧ prio s_rdy (running s_rdy) = prio s (running s)
  ∧ (if prio s (running s) <? p
     then thread_yield s_rdy = Ok (tt, yielded s_rdy)
          ∧ thread_create nm p function aux s = Ok (next_tid s, yielded s_rdy)
     else thread_create nm p function aux s = Ok (next_tid s, s_rdy)).
Proof.
  intros Hreach Hf Hp Hfp Ht Hc s_new s_rdy.
  pose proof (reachable_Inv s Hreach) as HI.
  pose proof (alloc_fresh s t ps HI Hfp) as Hfresh.
  assert (HI' : Inv s_rdy) by (by eapply spawned_Inv).
  assert (Hpg : page (mem s_new) t
                = spawned_thread t nm p function aux (next_tid s))
    by (unfold s_new, set_up; sred; apply page_insert_eq).
  assert (Hne : t ≠ running s) by (clear -Hfresh; set_solver).
  assert (Hrange : (PRI_MIN <=? p) && (p <=? PRI_MAX) = true).
  { apply andb_true_intro. split; apply Z.leb_le; lia. }
  apply Z.eqb_neq in Ht as Ht'. apply Z.eqb_neq in Hf as Hf'.
  assert (Hprun : prio s_rdy (running s) = prio s (running s)).
  { unfold s_rdy, spawned, unblocked, set_up. sred.
    rewrite !page_insert_ne by done. done. }
  split_and!.
  - eexists _, _. split; [unfold palloc_get_page; by rewrite Hfp|].
    rewrite init_thread_eq, Ht', Hrange. cbn [negb]. split; [done|].
    sred. by rewrite page_insert_eq.
  - by rewrite Hpg.
  - rewrite thread_unblock_eq. unfold is_thread_b. rewrite Hpg. cbn.
    rewrite Ht'. cbn. by rewrite bool_decide_eq_true_2.
  - unfold s_rdy, spawned, unblocked. sred. by rewrite page_insert_eq.
  - unfold s_rdy, spawned, unblocked. sred.
    apply insert_ordered_elem_of. by left.
  - unfold s_rdy, spawned, unblocked. sred.
    rewrite page_insert_eq. fold s_new. by rewrite Hpg.
  - done.
  - done.
  - assert (Hcr : thread_create nm p function aux s
                  = Ok (next_tid s, if prio s (running s) <? p
                                    then yielded s_rdy else s_rdy)).
    { rewrite thread_create_eq, Hf', Hfp, Ht', Hrange. cbn [negb].
      rewrite create_finish_run by done.
      change (running (spawned t nm p function aux s)) with (running s).
      fold s_rdy. by rewrite Hprun. }
    destruct (prio s (running s) <? p); [|done].
    split; [by apply thread_yield_total | done].
Qed.

Lemma C4_witness :
  (reachable ex_ab ∧ 1 ≠ NULL ∧ PRI_MIN ≤ 40 ≤ PRI_MAX
   ∧ free_pages ex_ab = [20480] ∧ 20480 ≠ NULL
   ∧ in_external_intr ex_ab = false)
  ∧ thread_create "c" 40 1 0 ex_ab
    = Ok (next_tid ex_ab, yielded (spawned 20480 "c" 40 1 0 ex_ab)).
Proof.
  assert (Hp : PRI_MIN ≤ 40 ≤ PRI_MAX) by (by vm_compute).
  assert (Hfp : free_pages ex_ab = [20480]) by (by vm_compute).
  split; [by repeat split; try apply ex_ab_reachable|].
  pose proof (C4_thread_create "c" 40 1 0 ex_ab 20480 []
                ex_ab_reachable ltac:(done) Hp Hfp ltac:(done) eq_refl) as H.
  cbv zeta in H.
  destruct H as (_ & _ & _ & _ & _ & _ & _ & _ & H).
  replace (prio ex_ab (running ex_ab) <? 40) with true in H
    by (by vm_compute).
  exact (proj2 H).
Defined.

(** ** [thread_set_priority] *)

Lemma free_pages_switched s : free_pages (switched s) = free_pages s.
Proof.
  unfold switched. destruct (_ =? _); [done|]. by destruct (_ && _ && _).
Qed.

Lemma free_pages_yielded s :
  free_pages (yielded s) = free_pages s ++ destruction_req s.
Proof.
  unfold yielded, rescheduled. sred. rewrite free_pages_switched.
  unfold drained, yield_enqueued. by destruct (negb _).
Qed.

Lemma prio_switched s u : prio (switched s) u = prio s u.
Proof. rewrite mem_switched. by rewrite (page_write_field priority). Qed.

Lemma prio_rescheduled st s u : prio (rescheduled st s) u = prio s u.
Proof.
  unfold rescheduled. rewrite prio_switched. unfold drained. sred.
  by rewrite (page_write_field priority).
Qed.

Lemma prio_yielded s u : prio (yielded s) u = prio s u.
Proof.
  unfold yielded. sred. rewrite prio_rescheduled.
  unfold yield_enqueued. by destruct (negb _).
Qed.

Lemma prio_awoken now s u : prio (awoken now s) u = prio s u.
Proof.
  unfold awoken.
  destruct (foldl_wake_spec (take_due now (mem s) (sleep_list s))
              (with_level INTR_OFF s)) as (_ & _ & _ & H & _).
  destruct (existsb _ _); sred; apply H.
Qed.

(** No call changes the priority of a thread that is neither running nor
    a free page. *)
Lemma step_priority_frame s s' u :
  Inv s → step s s' → u ≠ running s → u ∉ free_pages s →
  prio s' u = prio s u.
Proof.
  intros HI Hstep Hrun Hfree. destruct Hstep as
    [s s' H|s s' nm p fn aux v H|s s' H|s s' t Ht H|s s' H|s s' Hni H
    |s s' p H|s s' w H|s s' now H|s s' H|s l c y].
  - rewrite thread_tick_eq in H. inv_ok H. apply Ok_inj in H as [_ <-].
    unfold ticked. destruct (running s =? idle_thread s);
      by destruct (TIME_SLICE <=? _).
  - rewrite thread_create_eq in H. inv_ok H.
    + by apply Ok_inj in H as [_ <-].
    + apply Ok_inj in H as [_ <-]. sred. rewrite page_insert_ne; [done|].
      intros ->. apply Hfree. by left.
    + assert (Hsp : prio (spawned z nm p fn aux s) u = prio s u).
      { unfold spawned, unblocked, set_up. sred.
        rewrite (page_write_field priority) by done.
        rewrite page_insert_ne; [done|].
        intros ->. apply Hfree. by left. }
      apply create_finish_inv in H as [->|[_ ->]]; [done|].
      by rewrite prio_yielded.
  - rewrite thread_block_eq in H. inv_ok H. apply Ok_inj in H as [_ <-].
    rewrite prio_switched. sred. by rewrite (page_write_field priority).
  - rewrite thread_unblock_eq in H. inv_ok H. apply Ok_inj in H as [_ <-].
    unfold unblocked. sred. by rewrite (page_write_field priority).
  - rewrite thread_yield_eq in H. inv_ok H. apply Ok_inj in H as [_ <-].
    apply prio_yielded.
  - rewrite thread_exit_eq in H. inv_ok H. apply Ok_inj in H as [_ <-].
    by rewrite prio_rescheduled.
  - rewrite thread_set_priority_eq in H. cbn zeta in H.
    assert (H1 : prio (write_thread (running s) (set_priority p) s) u
                 = prio s u) by (sred; by rewrite page_insert_ne).
    inv_ok H.
    + by apply Ok_inj in H as [_ <-].
    + rewrite thread_yield_eq in H. inv_ok H. apply Ok_inj in H as [_ <-].
      by rewrite prio_yielded.
    + by apply Ok_inj in H as [_ <-].
  - rewrite thread_sleep_eq in H. inv_ok H.
    + by apply Ok_inj in H as [_ <-].
    + apply Ok_inj in H as [_ <-]. apply mem_slept_keys.
  - rewrite thread_awake_Inv in H by done. apply Ok_inj in H as [_ <-].
    apply prio_awoken.
  - rewrite idle_start_eq in H. inv_ok H. by apply Ok_inj in H as [_ <-].
  - done.
Qed.


(** C7: [thread_set_priority (p)] in a reachable state, outside interrupt
    context, returns.  It stores [p] in the running thread, so that reading
    the priority right after the store gives [p], and the caller's priority
    is [p] when the call is over; the caller yields exactly when the ready
    queue is not empty and [p] is strictly below the priority of its head. *)
Theorem C7_thread_set_priority p s :
  reachable s → in_external_intr s = false →
  let s1 := write_thread (running s) (set_priority p) s in
  let yields := match ready_list s with
                | [] => false
                | th :: _ => p <? prio s th
                end in
  thread_get_priority s1 = Ok (p, s1)
  ∧ thread_set_priority p s = Ok (tt, if yields then yielded s1 else s1)
  ∧ (yields = true → thread_yield s1 = Ok (tt, yielded s1))
  ∧ (yields = false → thread_get_priority (if yields then yielded s1 else s1)
                      = Ok (p, s1))
  ∧ prio (if yields then yielded s1 else s1) (running s) = p
  ∧ (∀ s'', step (if yields then yielded s1 else s1) s'' →
            running (if yields then yielded s1 else s1) ≠ running s →
            prio s'' (running s) = p).
Proof.
  intros Hreach Hc s1 yields. pose proof (reachable_Inv s Hreach) as HI.
  assert (HI1 : Inv s1) by (by apply Inv_write_running).
  assert (Hp1 : prio s1 (running s) = p)
    by (unfold s1; sred; by rewrite page_insert_eq).
  assert (Hget : thread_get_priority s1 = Ok (p, s1)).
  { rewrite thread_get_priority_eq.
    destruct HI1 as [_ _ _ _ _ [I6 I6'] _ _].
    rewrite I6, bool_decide_eq_true_2 by done.
    change (running s1) with (running s). by rewrite Hp1. }
  assert (Hhead : ∀ th r, ready_list s = th :: r → prio s1 th = prio s th).
  { intros th r Hr. unfold s1. sred. rewrite page_insert_ne; [done|].
    destruct HI as [_ _ I3 _ _ _ _ _]. unfold owned in I3. rewrite Hr in I3.
    apply NoDup_cons in I3 as [I3 _]. clear -I3. set_solver. }
  assert (Hy : thread_yield s1 = Ok (tt, yielded s1))
    by (by apply thread_yield_total).
  assert (Hafter : prio (if yields then yielded s1 else s1) (running s) = p).
  { destruct yields; [|done]. by rewrite prio_yielded. }
  split_and!; try done.
  - rewrite thread_set_priority_eq.
    destruct HI as [_ _ _ _ _ [I6 I6'] _ _].
    rewrite I6, bool_decide_eq_true_2 by done. cbn zeta. fold s1.
    unfold yields. destruct (ready_list s) as [|th r] eqn:Hr; [done|].
    rewrite (Hhead th r eq_refl). by destruct (p <? prio s th).
  - by intros ->.
  - intros s'' Hstep Hne. rewrite <- Hafter.
    apply step_priority_frame; [|done|done|].
    + destruct yields; [|done]. eapply thread_yield_Inv; [exact HI1|done].
    + destruct HI as [_ _ I3 _ _ _ _ _]. unfold owned in I3.
      apply NoDup_cons in I3 as [I3 _].
      destruct yields.
      * rewrite free_pages_yielded. change (free_pages s1) with (free_pages s).
        change (destruction_req s1) with (destruction_req s).
        clear -I3. set_solver.
      * change (free_pages s1) with (free_pages s). clear -I3. set_solver.
Qed.

Lemma C7_witness :
  (reachable ex_ab ∧ in_external_intr ex_ab = false)
  ∧ thread_set_priority 20 ex_ab
    = Ok (tt, yielded (write_thread (running ex_ab) (set_priority 20) ex_ab)).
Proof.
  split; [by split; [apply ex_ab_reachable|]|].
  exact (proj1 (proj2 (C7_thread_set_priority 20 ex_ab
                         ex_ab_reachable eq_refl))).
Defined.

(** ** Deferred destruction *)

Lemma destruction_switched s :
  destruction_req (switched s)
  = if negb (running s =? next_of s) && negb (running s =? NULL)
       && bool_decide (stat s (running s) = THREAD_DYING)
       && negb (running s =? initial_thread s)
    then destruction_req s ++ [running s]
    else destruction_req s.
Proof.
  unfold switched. destruct (running s =? next_of s); [done|]. cbn [negb andb].
  by destruct (_ && _ && _).
Qed.

Lemma destruction_switched_alive s :
  stat s (running s) ≠ THREAD_DYING →
  destruction_req (switched s) = destruction_req s.
Proof.
  intros H. rewrite destruction_switched.
  rewrite (bool_decide_eq_false_2 _ H). by rewrite !andb_false_r.
Qed.



Lemma yield_enqueued_fields s :
  mem (yield_enqueued s) = mem s
  ∧ running (yield_enqueued s) = running s
  ∧ level (yield_enqueued s) = INTR_OFF
  ∧ destruction_req (yield_enqueued s) = destruction_req s.
Proof.
  unfold yield_enqueued. by destruct (negb (running s =? idle_thread s)).
Qed.


Lemma thread_exit_do_schedule s s' :
  thread_exit s = Ok (tt, s') →
  do_schedule THREAD_DYING (with_level INTR_OFF s) = Ok (tt, s')
  ∧ s' = rescheduled THREAD_DYING (with_level INTR_OFF s)
  ∧ next_of s ≠ running s.
Proof.
  intros H. rewrite thread_exit_eq in H. inv_ok H.
  apply Ok_inj in H as [_ <-]. split; [|split; [done|by apply Z.eqb_neq]].
  rewrite do_schedule_run. sred. rewrite bool_decide_eq_true_2 by done.
  change (next_of (with_level INTR_OFF s)) with (next_of s).
  by rewrite E0, E1, E2.
Qed.






Lemma reachable_next_not_running s :
  Inv s → running s ≠ idle_thread s → next_of s ≠ running s.
Proof.
  intros [_ _ I3 _ _ _ _ _] Hni. unfold next_of.
  destruct (ready_list s) as [|n r] eqn:Hr; [done|].
  unfold owned in I3. rewrite Hr in I3. apply NoDup_cons in I3 as [I3 _].
  intros ->. apply I3. by left.
Qed.




(** ** The range of priorities *)

(** [init_thread] accepts only priorities between [PRI_MIN] and [PRI_MAX]. *)
Lemma init_thread_range t nm p s s' :
  init_thread t nm p s = Ok (tt, s') →
  PRI_MIN ≤ prio s' t ≤ PRI_MAX.
Proof.
  intros H. rewrite init_thread_eq in H. inv_ok H.
  apply Ok_inj in H as [_ <-]. sred. rewrite page_insert_eq. cbn.
  apply andb_prop in E0 as [H1 H2]. apply Z.leb_le in H1, H2. done.
Qed.

(** C8 fails on the code: [thread_set_priority] stores its argument without
    the check that [init_thread] makes, so a reachable state has a running
    thread of priority 64. *)
Theorem C8_set_priority_unchecked :
  ∃ s', thread_set_priority 64 ex_ab = Ok (tt, s')
        ∧ reachable s'
        ∧ prio s' (running s') = 64
        ∧ ¬ (PRI_MIN ≤ prio s' (running s') ≤ PRI_MAX).
Proof.
  assert (H : thread_set_priority 64 ex_ab
              = Ok (tt, write_thread (running ex_ab) (set_priority 64) ex_ab))
    by (by vm_compute).
  eexists. split; [exact H|]. split_and!.
  - eapply reach_step; [apply ex_ab_reachable|].
    eapply step_set_priority. exact H.
  - by vm_compute.
  - replace (prio _ _) with 64 by (by vm_compute). unfold PRI_MAX. lia.
Qed.

(** ** The initial thread *)

(** C10: when [schedule] switches away from the initial thread while it is
    dying, the destruction list and the page pool are as before; in every
    reachable state the initial thread is neither on the destruction list
    nor free; and after a [thread_exit] of the initial thread the
    destruction list is empty. *)
Theorem C10_initial_thread_kept s :
  (running s = initial_thread s → stat s (running s) = THREAD_DYING →
   level s = INTR_OFF → is_thread_b (mem s) (next_of s) = true →
   schedule s = Ok (tt, switched s)
   ∧ destruction_req (switched s) = destruction_req s
   ∧ free_pages (switched s) = free_pages s)
  ∧ (reachable s →
     (initial_thread s ∉ destruction_req s)
     ∧ initial_thread s ∉ free_pages s)
  ∧ (reachable s → running s = initial_thread s →
     ∀ s', thread_exit s = Ok (tt, s') →
       destruction_req s' = []
       ∧ initial_thread s' = initial_thread s
       ∧ initial_thread s' ∉ free_pages s').
Proof.
  split_and!.
  - intros Hinit Hdy Hl Hnext. split_and!.
    + rewrite schedule_eq, Hl, Hdy, Hnext.
      by rewrite bool_decide_eq_true_2.
    + rewrite destruction_switched. rewrite <- Hinit.
      rewrite Z.eqb_refl. cbn [negb]. by rewrite andb_false_r.
    + apply free_pages_switched.
  - intros Hreach. destruct (reachable_Inv s Hreach) as [_ _ _ _ _ _ _ I8].
    clear -I8. set_solver.
  - intros Hreach Hinit s' H. pose proof (reachable_Inv s Hreach) as HI.
    apply thread_exit_do_schedule in H as (_ & -> & Hnr).
    destruct HI as [_ _ I3 _ _ _ _ I8].
    unfold rescheduled. split_and!.
    + rewrite destruction_switched. unfold drained. sred.
      rewrite <- Hinit. rewrite Z.eqb_refl. cbn [negb].
      by rewrite andb_false_r.
    + unfold switched. destruct (_ =? _); [done|]. by destruct (_ && _ && _).
    + replace (initial_thread (switched _)) with (running s).
      2:{ unfold switched. destruct (_ =? _); [done|].
          by destruct (_ && _ && _). }
      rewrite free_pages_switched. unfold drained. sred.
      unfold owned in I3. apply NoDup_cons in I3 as [I3 _].
      clear -I3. set_solver.
Qed.

Lemma C10_witness :
  (reachable ex_ab ∧ running ex_ab = initial_thread ex_ab)
  ∧ (initial_thread ex_ab ∉ destruction_req ex_ab)
  ∧ destruction_req ex_main_dead = [].
Proof.
  assert (Hinit : running ex_ab = initial_thread ex_ab) by (by vm_compute).
  split; [by split; [apply ex_ab_reachable|]|].
  destruct (C10_initial_thread_kept ex_ab) as (_ & H2 & H3).
  split.
  - exact (proj1 (H2 ex_ab_reachable)).
  - exact (proj1 (H3 ex_ab_reachable Hinit ex_main_dead ex_main_dead_run)).
Defined.

(** * Further properties of the scheduler *)

(** ** Who is where *)

(** X1: in every reachable state the running thread has an intact canary
    and status running, every member of the ready queue is an intact thread
    of status ready and every member of the sleep queue an intact thread of
    status blocked; so no queued thread is marked running. *)
Theorem X1_statuses s :
  reachable s →
  (is_thread_b (mem s) (running s) = true
   ∧ stat s (running s) = THREAD_RUNNING)
  ∧ (∀ t, t ∈ ready_list s →
       is_thread_b (mem s) t = true ∧ stat s t = THREAD_READY)
  ∧ (∀ t, t ∈ sleep_list s →
       is_thread_b (mem s) t = true ∧ stat s t = THREAD_BLOCKED)
  ∧ (∀ t, t ∈ ready_list s ++ sleep_list s → stat s t ≠ THREAD_RUNNING).
Proof.
  intros Hreach.
  destruct (reachable_Inv s Hreach) as [_ _ _ I4 I5 [I6 I6'] _ _].
  unfold ready_threads, blocked_threads in *. rewrite Forall_forall in I4, I5.
  split_and!; try done.
  intros t Ht. apply elem_of_app in Ht as [Ht|Ht].
  - destruct (I4 t Ht) as [_ ->]. done.
  - destruct (I5 t Ht) as [_ ->]. done.
Qed.

Lemma X1_witness :
  reachable ex_asleep
  ∧ stat ex_asleep (running ex_asleep) = THREAD_RUNNING.
Proof.
  split; [apply ex_asleep_reachable|].
  exact (proj2 (proj1 (X1_statuses ex_asleep ex_asleep_reachable))).
Defined.

(** X2: in every reachable state the running thread, the ready queue, the
    sleep queue, the destruction list and the free pages hold no page twice:
    a thread is linked on at most one list, the running thread on none, and
    the idle thread, once set, is never asleep, dying or free. *)
Theorem X2_one_list_each s :
  reachable s →
  NoDup (running s :: ready_list s ++ sleep_list s
           ++ destruction_req s ++ free_pages s)
  ∧ (∀ t, t ∈ ready_list s → t ∉ sleep_list s)
  ∧ (running s ∉ ready_list s ++ sleep_list s)
  ∧ (idle_thread s ≠ NULL →
     idle_thread s ∉ sleep_list s ++ destruction_req s ++ free_pages s).
Proof.
  intros Hreach. destruct (reachable_Inv s Hreach) as [_ _ I3 _ _ _ I7 _].
  unfold owned in I3. split_and!; try done.
  - apply NoDup_cons in I3 as [_ I3]. apply NoDup_app in I3 as (_ & I3 & _).
    intros t Ht Hs. apply (I3 t Ht). apply elem_of_app. by left.
  - apply NoDup_cons in I3 as [I3 _]. clear -I3. set_solver.
Qed.

Lemma X2_witness :
  reachable ex_asleep
  ∧ (running ex_asleep ∉ ready_list ex_asleep ++ sleep_list ex_asleep).
Proof.
  split; [apply ex_asleep_reachable|].
  exact (proj1 (proj2 (proj2 (X2_one_list_each ex_asleep
                                ex_asleep_reachable)))).
Defined.

(** ** Who runs next *)

(** No ready thread has a higher priority than the running one. *)
Definition dominates (s : sched) : Prop :=
  Forall (λ e, prio s e ≤ prio s (running s)) (ready_list s).

Lemma dominates_with_level l s : dominates s → dominates (with_level l s).
Proof. done. Qed.

(** After a switch out of a state with a sorted ready queue, no ready thread
    has a higher priority than the running one. *)
Lemma switched_dominates s :
  StronglySorted (prio_ge (mem s)) (ready_list s) → dominates (switched s).
Proof.
  intros Hs. unfold dominates. rewrite ready_list_switched, running_switched.
  unfold next_of. destruct (ready_list s) as [|n r]; [constructor|].
  apply StronglySorted_cons in Hs as [Hs _]. cbn [tail].
  eapply Forall_impl; [exact Hs|]. intros e He. by rewrite !prio_switched.
Qed.

Lemma yield_enqueued_sorted s :
  Inv s →
  StronglySorted (prio_ge (mem s)) (ready_list (yield_enqueued s)).
Proof.
  intros [I1 _ _ I4 _ [I6 _] _ _]. unfold yield_enqueued.
  destruct (negb (running s =? idle_thread s)); [|done]. sred.
  apply insert_prio_sorted; [by eapply is_thread_b_nonnull| |done].
  by eapply ready_threads_nonnull.
Qed.

(** X3: at every scheduling decision of a reachable state, by [thread_yield],
    [thread_block], [thread_sleep] or [thread_exit], the thread that runs
    afterwards has a priority at least that of every thread left in the
    ready queue. *)
Theorem X3_highest_priority_runs s s' :
  reachable s →
  thread_yield s = Ok (tt, s') ∨ thread_block s = Ok (tt, s')
  ∨ (∃ w, thread_sleep w s = Ok (tt, s') ∧ running s ≠ idle_thread s)
  ∨ thread_exit s = Ok (tt, s') →
  Forall (λ e, prio s' e ≤ prio s' (running s')) (ready_list s').
Proof.
  intros Hreach H. pose proof (reachable_Inv s Hreach) as HI.
  pose proof HI as [I1 _ _ _ _ _ _ _].
  enough (Hd : dominates s') by exact Hd.
  destruct H as [H|[H|[[w [H Hni]]|H]]].
  - rewrite thread_yield_eq in H. inv_ok H. apply Ok_inj in H as [_ <-].
    apply dominates_with_level, switched_dominates.
    unfold drained. sred. apply prio_sorted_write; [done|].
    destruct (yield_enqueued_fields s) as (-> & _).
    by apply yield_enqueued_sorted.
  - rewrite thread_block_eq in H. inv_ok H. apply Ok_inj in H as [_ <-].
    apply switched_dominates. sred. by apply prio_sorted_write.
  - rewrite thread_sleep_eq in H. inv_ok H.
    { by apply Z.eqb_eq in E1. }
    apply Ok_inj in H as [_ <-].
    apply dominates_with_level, switched_dominates.
    unfold sleep_enqueued. sred.
    rewrite insert_insert_eq, page_insert_eq.
    by apply (prio_sorted_write _ _
                (λ th, set_status THREAD_BLOCKED (set_wakeup_tick w th))).
  - apply thread_exit_do_schedule in H as (_ & -> & _).
    apply switched_dominates. unfold drained. sred.
    by apply prio_sorted_write.
Qed.

Lemma X3_witness :
  (reachable ex_ab ∧ thread_yield ex_ab = Ok (tt, ex_a_runs))
  ∧ Forall (λ e, prio ex_a_runs e ≤ prio ex_a_runs (running ex_a_runs))
      (ready_list ex_a_runs).
Proof.
  split; [split; [apply ex_ab_reachable|apply ex_a_runs_run]|].
  apply (X3_highest_priority_runs ex_ab ex_a_runs ex_ab_reachable).
  left. apply ex_a_runs_run.
Defined.

Lemma insert_prio_head m x l :
  x ≠ NULL →
  match l with
  | [] => True
  | e :: _ => e ≠ NULL ∧ priority (page m e) < priority (page m x)
  end →
  insert_ordered (thread_prio_cmp m) x l = x :: l.
Proof.
  intros Hx. destruct l as [|e l]; [done|]. intros [He Hp]. cbn.
  unfold thread_prio_cmp. cbn zeta.
  apply Z.eqb_neq in Hx, He. rewrite Hx, He. cbn [orb].
  apply Z.ltb_lt in Hp. by rewrite Hp.
Qed.

Lemma insert_prio_behind m x e l :
  priority (page m x) ≤ priority (page m e) →
  insert_ordered (thread_prio_cmp m) x (e :: l)
  = e :: insert_ordered (thread_prio_cmp m) x l.
Proof.
  intros Hp. cbn. unfold thread_prio_cmp at 1. cbn zeta.
  destruct (_ || _); [done|]. apply Z.ltb_ge in Hp. by rewrite Hp.
Qed.

Lemma mem_yielded s :
  mem (yielded s)
  = <[next_of (yield_enqueued s) :=
        set_status THREAD_RUNNING
          (page (<[running s := set_status THREAD_READY
                                  (page (mem s) (running s))]> (mem s))
             (next_of (yield_enqueued s)))]>
      (<[running s := set_status THREAD_READY (page (mem s) (running s))]>
         (mem s)).
Proof.
  unfold yielded, rescheduled. sred. rewrite mem_switched. unfold drained.
  sred. destruct (yield_enqueued_fields s) as (-> & -> & _).
  reflexivity.
Qed.

Lemma next_of_yielded s :
  running (yielded s) = next_of (yield_enqueued s).
Proof. unfold yielded, rescheduled. sred. by rewrite running_switched. Qed.

Lemma set_status_same th : set_status (status th) th = th.
Proof. by destruct th. Qed.

(** X4: in a reachable state, outside interrupt context, a [thread_yield] by
    a thread whose priority is strictly above that of every ready thread (or
    by the idle thread with an empty ready queue) comes back to the same
    thread: the running thread, the queues and every thread's page are as
    before. *)
Theorem X4_yield_keeps_the_highest s :
  reachable s → in_external_intr s = false →
  (running s ≠ idle_thread s
   ∧ Forall (λ e, prio s e < prio s (running s)) (ready_list s))
  ∨ (running s = idle_thread s ∧ ready_list s = []) →
  ∃ s', thread_yield s = Ok (tt, s')
    ∧ running s' = running s
    ∧ ready_list s' = ready_list s
    ∧ sleep_list s' = sleep_list s
    ∧ ∀ u, thread_at s' u = thread_at s u.
Proof.
  intros Hreach Hc Hcase. pose proof (reachable_Inv s Hreach) as HI.
  exists (yielded s). split; [by apply thread_yield_total|].
  destruct HI as [_ _ _ I4 _ [I6 I6'] _ _].
  assert (Hq : ready_list (yield_enqueued s)
               = if running s =? idle_thread s then []
                 else running s :: ready_list s).
  { unfold yield_enqueued. destruct Hcase as [[Hni Hall]|[Hi Hr]].
    - apply Z.eqb_neq in Hni. rewrite Hni. cbn [negb]. sred.
      apply insert_prio_head; [by eapply is_thread_b_nonnull|].
      destruct (ready_list s) as [|e l]; [done|].
      apply Forall_cons in Hall as [Hall _].
      apply Forall_cons in I4 as [[I4 _] _].
      split; [by eapply is_thread_b_nonnull|done].
    - apply Z.eqb_eq in Hi as Hi'. rewrite Hi'. cbn [negb]. by sred. }
  assert (Hnext : next_of (yield_enqueued s) = running s).
  { unfold next_of. rewrite Hq.
    destruct (running s =? idle_thread s) eqn:Hi; [|done].
    apply Z.eqb_eq in Hi. unfold yield_enqueued.
    by destruct (negb (running s =? idle_thread s)). }
  split_and!.
  - by rewrite next_of_yielded.
  - rewrite ready_list_yielded, Hq.
    destruct Hcase as [[Hni _]|[Hi Hr]].
    + apply Z.eqb_neq in Hni. by rewrite Hni.
    + apply Z.eqb_eq in Hi. by rewrite Hi, Hr.
  - unfold yielded, rescheduled. sred. rewrite sleep_list_switched.
    unfold drained, yield_enqueued.
    by destruct (negb (running s =? idle_thread s)).
  - intros u. rewrite mem_yielded, Hnext. rewrite !page_insert_eq.
    destruct (decide (running s = u)) as [<-|Hne].
    + rewrite page_insert_eq. cbn. rewrite <- I6'.
      by destruct (page (mem s) (running s)).
    + by rewrite !page_insert_ne.
Qed.

Lemma X4_witness :
  (reachable ex_started ∧ in_external_intr ex_started = false
   ∧ ready_list ex_started = [])
  ∧ ∃ s', thread_yield ex_started = Ok (tt, s')
          ∧ running s' = running ex_started.
Proof.
  assert (Hr : ready_list ex_started = []) by (by vm_compute).
  split; [by split_and!; try apply ex_started_reachable|].
  destruct (X4_yield_keeps_the_highest ex_started ex_started_reachable
              eq_refl) as (s' & Hy & Hrun & _).
  { left. split; [by vm_compute|]. rewrite Hr. constructor. }
  exists s'. split; [exact Hy|exact Hrun].
Defined.

(** X5: in a reachable state, outside interrupt context, a [thread_yield] by
    a thread other than the idle thread whose priority is not above that of
    the head of the ready queue hands the processor to that head; the caller
    becomes ready and goes into the rest of the queue behind every thread of
    its own or a higher priority. *)
Theorem X5_yield_to_the_head s n r :
  reachable s → in_external_intr s = false →
  running s ≠ idle_thread s → ready_list s = n :: r →
  prio s (running s) ≤ prio s n →
  ∃ s', thread_yield s = Ok (tt, s')
    ∧ running s' = n
    ∧ stat s' n = THREAD_RUNNING
    ∧ stat s' (running s) = THREAD_READY
    ∧ ready_list s' = insert_ordered (thread_prio_cmp (mem s)) (running s) r
    ∧ fifo_insert (mem s) (running s) r (ready_list s').
Proof.
  intros Hreach Hc Hni Hr Hp. pose proof (reachable_Inv s Hreach) as HI.
  exists (yielded s). split; [by apply thread_yield_total|].
  destruct HI as [I1 _ I3 I4 _ [I6 I6'] _ _].
  assert (Hq : ready_list (yield_enqueued s)
               = n :: insert_ordered (thread_prio_cmp (mem s)) (running s) r).
  { unfold yield_enqueued. apply Z.eqb_neq in Hni. rewrite Hni. cbn [negb].
    sred. rewrite Hr. by apply insert_prio_behind. }
  assert (Hnext : next_of (yield_enqueued s) = n)
    by (unfold next_of; by rewrite Hq).
  assert (Hne : running s ≠ n).
  { unfold owned in I3. rewrite Hr in I3. apply NoDup_cons in I3 as [I3 _].
    intros Heq. apply I3. rewrite Heq. cbn. by left. }
  assert (Hins : ready_list (yielded s)
                 = insert_ordered (thread_prio_cmp (mem s)) (running s) r)
    by (by rewrite ready_list_yielded, Hq).
  split_and!.
  - by rewrite next_of_yielded.
  - rewrite mem_yielded, Hnext. by rewrite page_insert_eq.
  - rewrite mem_yielded, Hnext. rewrite page_insert_ne by done.
    by rewrite page_insert_eq.
  - done.
  - rewrite Hins. rewrite Hr in I1, I4.
    apply StronglySorted_cons in I1 as [_ I1].
    apply Forall_cons in I4 as [_ I4].
    apply insert_prio_fifo; [by eapply is_thread_b_nonnull| |done].
    by eapply ready_threads_nonnull.
Qed.

Lemma X5_witness :
  (reachable ex_ab ∧ in_external_intr ex_ab = false
   ∧ running ex_ab ≠ idle_thread ex_ab
   ∧ ready_list ex_ab = [12288; 16384]
   ∧ prio ex_ab (running ex_ab) ≤ prio ex_ab 12288)
  ∧ ∃ s', thread_yield ex_ab = Ok (tt, s') ∧ running s' = 12288
          ∧ ready_list s' = [16384; 4096].
Proof.
  assert (H1 : running ex_ab ≠ idle_thread ex_ab) by (by vm_compute).
  assert (H2 : ready_list ex_ab = [12288; 16384]) by (by vm_compute).
  assert (H3 : prio ex_ab (running ex_ab) ≤ prio ex_ab 12288)
    by (by vm_compute).
  split; [by split_and!; try apply ex_ab_reachable|].
  destruct (X5_yield_to_the_head ex_ab 12288 [16384] ex_ab_reachable
              eq_refl H1 H2 H3) as (s' & Hy & Hrun & _ & _ & Hq & _).
  exists s'. split; [exact Hy|]. split; [exact Hrun|].
  rewrite Hq. vm_compute. reflexivity.
Defined.

(** ** The alarm clock: [thread_sleep] and [thread_awake] *)

(** X6: [thread_awake (now_tick)] called when the sleep queue is empty or
    its first entry is not yet due does nothing at all: it returns in the
    state it was called in, whatever that state is. *)
Theorem X6_thread_awake_too_early now s :
  (∀ t, head (sleep_list s) = Some t → now < wake s t) →
  thread_awake now s = Ok (tt, s).
Proof.
  intros Hhead. unfold thread_awake.
  unfold bind at 1, intr_disable, intr_set_level. mred. sred.
  destruct s as [m rl [|t sl] idl ini d it kt ut tt' nt run lv ext yr fp];
    cbn [awake_loop length]; mred; sred; [done|].
  specialize (Hhead t eq_refl). sred_in Hhead.
  apply Z.leb_gt in Hhead. by rewrite Hhead.
Qed.

Lemma X6_witness :
  (∀ t, head (sleep_list ex_asleep) = Some t → 5 < wake ex_asleep t)
  ∧ thread_awake 5 ex_asleep = Ok (tt, ex_asleep).
Proof.
  assert (H : ∀ t, head (sleep_list ex_asleep) = Some t
                   → 5 < wake ex_asleep t).
  { intros t. vm_compute. by intros [= <-]. }
  split; [exact H|]. exact (X6_thread_awake_too_early 5 ex_asleep H).
Defined.

Lemma awoken_spec now s :
  Inv s →
  let woken := filter (λ t, wake s t ≤ now) (sleep_list s) in
  running (awoken now s) = running s
  ∧ sleep_list (awoken now s)
    = filter (λ t, ¬ wake s t ≤ now) (sleep_list s)
  ∧ ready_list (awoken now s) = insert_all (mem s) (ready_list s) woken
  ∧ ∀ u, stat (awoken now s) u
         = if decide (u ∈ woken) then THREAD_READY else stat s u.
Proof.
  intros HI woken.
  destruct (take_due_filter now (mem s) (sleep_list s)) as [Htake Hdrop];
    [by destruct HI|].
  fold woken in Htake.
  destruct (foldl_wake_Inv woken (with_level INTR_OFF s)
              (drop_due now (mem s) (sleep_list s)))
    as [HI' Hsl'].
  { by apply Inv_with_level. }
  { sred. by rewrite <- Htake, take_drop_due. }
  destruct (foldl_wake_spec woken (with_level INTR_OFF s))
    as (H1 & _ & _ & _ & H5 & H6).
  sred_in H1; sred_in H5; sred_in H6.
  unfold awoken. rewrite Htake.
  split_and!.
  - by destruct (existsb _ _).
  - rewrite <- Hdrop. by destruct (existsb _ _).
  - by destruct (existsb _ _).
  - intros u. rewrite <- H5. by destruct (existsb _ _).
Qed.

Lemma slept_enqueued w s : running s ∈ sleep_list (slept w s).
Proof.
  unfold slept. sred. rewrite sleep_list_switched.
  unfold sleep_enqueued. sred. apply insert_ordered_elem_of. by left.
Qed.

Lemma wake_slept w s : wake (slept w s) (running s) = w.
Proof.
  destruct (mem_slept_keys w s (running s)) as [_ Hw].
  rewrite decide_True in Hw by done. exact Hw.
Qed.

(** X7: a thread other than the idle thread that went to sleep until tick
    [w] is, after a later [thread_awake (now)], ready and in the ready queue
    if [w <= now], and still blocked and in the sleep queue if [now < w];
    in either case it is in exactly one of the two queues and
    [thread_awake] returns. *)
Theorem X7_sleep_then_awake s w s1 now :
  reachable s → running s ≠ idle_thread s →
  thread_sleep w s = Ok (tt, s1) →
  ∃ s2, thread_awake now s1 = Ok (tt, s2)
    ∧ running s2 = running s1
    ∧ (w ≤ now → stat s2 (running s) = THREAD_READY
                 ∧ running s ∈ ready_list s2
                 ∧ running s ∉ sleep_list s2)
    ∧ (now < w → stat s2 (running s) = THREAD_BLOCKED
                 ∧ running s ∈ sleep_list s2
                 ∧ running s ∉ ready_list s2).
Proof.
  intros Hreach Hni Hs. pose proof (reachable_Inv s Hreach) as HI.
  assert (HI1 : Inv s1) by (eapply step_Inv; [exact HI|by eapply step_sleep]).
  assert (Hs1 : s1 = slept w s).
  { rewrite thread_sleep_eq in Hs. inv_ok Hs.
    - by apply Z.eqb_eq in E1.
    - by apply Ok_inj in Hs as [_ <-]. }
  pose proof (slept_enqueued w s) as Hin.
  pose proof (wake_slept w s) as Hw.
  rewrite <- Hs1 in Hin, Hw. clear Hs Hs1.
  exists (awoken now s1). split; [by apply thread_awake_Inv|].
  destruct (awoken_spec now s1 HI1) as (Hrun & Hsl & Hrl & Hst).
  pose proof HI1 as [_ _ I3 _ I5 _ _ _].
  assert (Hblocked : stat s1 (running s) = THREAD_BLOCKED).
  { unfold blocked_threads in I5.
    rewrite Forall_forall in I5. by destruct (I5 _ Hin). }
  assert (Hnot : running s ∉ ready_list s1).
  { apply NoDup_cons in I3 as [_ I3].
    unfold owned in I3. apply NoDup_app in I3 as (_ & I3 & _).
    intros Hr. apply (I3 _ Hr). apply elem_of_app. by left. }
  split; [exact Hrun|]. split.
  - intros Hdue.
    assert (Hwoken : running s ∈ filter (λ t, wake s1 t ≤ now)
                                   (sleep_list s1)).
    { apply list_elem_of_filter. split; [|exact Hin]. by rewrite Hw. }
    split_and!.
    + rewrite Hst. by rewrite decide_True.
    + rewrite Hrl. apply insert_all_elem_of. by left.
    + rewrite Hsl. rewrite list_elem_of_filter. intros [Hn _].
      apply Hn. by rewrite Hw.
  - intros Hlate.
    assert (Hwoken : running s ∉ filter (λ t, wake s1 t ≤ now)
                                   (sleep_list s1)).
    { rewrite list_elem_of_filter. intros [Hd _]. rewrite Hw in Hd. lia. }
    split_and!.
    + rewrite Hst. by rewrite decide_False.
    + rewrite Hsl. apply list_elem_of_filter. split; [|exact Hin].
      rewrite Hw. lia.
    + rewrite Hrl. rewrite insert_all_elem_of. by intros [?|?].
Qed.

Lemma X7_witness :
  (reachable ex_ab ∧ running ex_ab ≠ idle_thread ex_ab
   ∧ thread_sleep 50 ex_ab = Ok (tt, ex_sleep1))
  ∧ ∃ s2, thread_awake 60 ex_sleep1 = Ok (tt, s2)
          ∧ stat s2 4096 = THREAD_READY ∧ 4096 ∈ ready_list s2.
Proof.
  assert (H1 : running ex_ab ≠ idle_thread ex_ab) by (by vm_compute).
  split; [split_and!; [apply ex_ab_reachable|done|apply ex_sleep1_run]|].
  destruct (X7_sleep_then_awake ex_ab 50 ex_sleep1 60 ex_ab_reachable H1
              ex_sleep1_run) as (s2 & Hrun & _ & Hdue & _).
  exists s2. split; [exact Hrun|].
  destruct Hdue as (Hst & Hin & _); [lia|]. by split.
Defined.

(** ** Assertion failures *)

(** X8: when the canary of the running thread's page is not [THREAD_MAGIC]
    (the kernel stack grew into [struct thread]), [thread_current] fails its
    [is_thread] assertion, and so does every operation that starts from the
    running thread: none of them returns. *)
Theorem X8_overflow_is_detected s :
  magic (thread_at s (running s)) ≠ THREAD_MAGIC →
  thread_current s = Panic "is_thread (t)"
  ∧ thread_tick s = Panic "is_thread (t)"
  ∧ thread_yield s = Panic "is_thread (t)"
  ∧ thread_get_priority s = Panic "is_thread (t)"
  ∧ (∀ p, thread_set_priority p s = Panic "is_thread (t)")
  ∧ (∀ w, thread_sleep w s = Panic "is_thread (t)")
  ∧ idle_start s = Panic "is_thread (t)"
  ∧ (∃ msg, thread_block s = Panic msg)
  ∧ (∃ msg, thread_exit s = Panic msg)
  ∧ (∀ st, ∃ msg, do_schedule st s = Panic msg).
Proof.
  intros Hm.
  assert (Hth : is_thread_b (mem s) (running s) = false).
  { unfold is_thread_b. apply Z.eqb_neq in Hm. rewrite Hm.
    by rewrite andb_false_r. }
  split_and!.
  - by rewrite thread_current_eq, Hth.
  - by rewrite thread_tick_eq, Hth.
  - by rewrite thread_yield_eq, Hth.
  - by rewrite thread_get_priority_eq, Hth.
  - intros p. by rewrite thread_set_priority_eq, Hth.
  - intros w. by rewrite thread_sleep_eq, Hth.
  - by rewrite idle_start_eq, Hth.
  - rewrite thread_block_eq, Hth.
    destruct (negb _); [|by eexists]. destruct (bool_decide _); by eexists.
  - rewrite thread_exit_eq, Hth. destruct (negb _); by eexists.
  - intros st. rewrite do_schedule_eq, Hth.
    destruct (bool_decide _); by eexists.
Qed.

(** The running thread's page of [ex_ab] with its canary overwritten. *)
Definition ex_smashed : sched :=
  write_thread 4096 (set_magic 0) ex_ab.

Lemma X8_witness :
  magic (thread_at ex_smashed (running ex_smashed)) ≠ THREAD_MAGIC
  ∧ thread_yield ex_smashed = Panic "is_thread (t)".
Proof.
  assert (H : magic (thread_at ex_smashed (running ex_smashed))
              ≠ THREAD_MAGIC) by (by vm_compute).
  split; [exact H|].
  by destruct (X8_overflow_is_detected ex_smashed H) as (_ & _ & Hy & _).
Defined.

(** X9: inside an external interrupt handler the operations that would put
    the running thread aside do not return: [thread_yield], [thread_block]
    and [thread_exit] panic, and so does [thread_sleep] unless the running
    thread is the idle thread. *)
Theorem X9_no_switch_in_interrupt_context s :
  in_external_intr s = true →
  (∃ msg, thread_yield s = Panic msg)
  ∧ thread_block s = Panic "!intr_context ()"
  ∧ thread_exit s = Panic "!intr_context ()"
  ∧ (∀ w, running s ≠ idle_thread s → ∃ msg, thread_sleep w s = Panic msg).
Proof.
  intros Hc. split_and!.
  - rewrite thread_yield_eq, Hc. cbn [negb].
    destruct (is_thread_b _ _); [|by eexists].
    destruct (bool_decide _); by eexists.
  - by rewrite thread_block_eq, Hc.
  - by rewrite thread_exit_eq, Hc.
  - intros w Hni. rewrite thread_sleep_eq, Hc. cbn [negb].
    apply Z.eqb_neq in Hni. rewrite Hni.
    destruct (is_thread_b _ _); [|by eexists].
    destruct (bool_decide _); by eexists.
Qed.

Lemma X9_witness :
  in_external_intr (with_in_external_intr true ex_ab) = true
  ∧ thread_exit (with_in_external_intr true ex_ab)
    = Panic "!intr_context ()".
Proof.
  split; [done|].
  by destruct (X9_no_switch_in_interrupt_context
                 (with_in_external_intr true ex_ab) eq_refl)
    as (_ & _ & He & _).
Defined.

(** X10: with interrupts enabled, [thread_init], [thread_block],
    [do_schedule] and [schedule] fail their assertion on the interrupt
    level, whatever else the state holds (for [thread_block], outside
    interrupt context, where its first assertion passes). *)
Theorem X10_interrupts_must_be_off s :
  level s = INTR_ON →
  thread_init s = Panic "intr_get_level () == INTR_OFF"
  ∧ schedule s = Panic "intr_get_level () == INTR_OFF"
  ∧ (∀ st, do_schedule st s = Panic "intr_get_level () == INTR_OFF")
  ∧ (in_external_intr s = false →
     thread_block s = Panic "intr_get_level () == INTR_OFF").
Proof.
  intros Hl.
  assert (Hb : bool_decide (level s = INTR_OFF) = false)
    by (apply bool_decide_eq_false_2; by rewrite Hl).
  split_and!.
  - by rewrite thread_init_eq, Hb.
  - by rewrite schedule_eq, Hb.
  - intros st. by rewrite do_schedule_eq, Hb.
  - intros Hc. by rewrite thread_block_eq, Hc, Hb.
Qed.

Lemma X10_witness :
  level ex_ab = INTR_ON
  ∧ thread_block ex_ab = Panic "intr_get_level () == INTR_OFF".
Proof.
  split; [done|].
  destruct (X10_interrupts_must_be_off ex_ab eq_refl) as (_ & _ & _ & Hb).
  by apply Hb.
Defined.

(** X11: in a reachable state with an empty ready queue and no idle thread
    yet (before [thread_start] has created it), the running thread cannot
    give up the processor: [thread_block] (with interrupts off),
    [thread_exit] and [thread_sleep] panic on the [is_thread (next)]
    assertion of [schedule], while [thread_yield] returns with the caller
    still running. *)
Theorem X11_nothing_to_run s :
  reachable s → in_external_intr s = false →
  ready_list s = [] → idle_thread s = NULL →
  (level s = INTR_OFF → thread_block s = Panic "is_thread (next)")
  ∧ thread_exit s = Panic "is_thread (next)"
  ∧ (∀ w, thread_sleep w s = Panic "is_thread (next)")
  ∧ ∃ s', thread_yield s = Ok (tt, s') ∧ running s' = running s.
Proof.
  intros Hreach Hc Hr Hidle. pose proof (reachable_Inv s Hreach) as HI.
  pose proof HI as [_ _ _ _ _ [I6 I6'] _ _].
  assert (Hnext : is_thread_b (mem s) (next_of s) = false)
    by (unfold next_of; by rewrite Hr, Hidle).
  assert (Hst : bool_decide (stat s (running s) = THREAD_RUNNING) = true)
    by (by apply bool_decide_eq_true_2).
  assert (Hni : running s ≠ idle_thread s).
  { rewrite Hidle. by eapply is_thread_b_nonnull. }
  split_and!.
  - intros Hl. rewrite thread_block_eq, Hc, I6, Hst, Hnext. cbn [negb].
    by rewrite bool_decide_eq_true_2.
  - by rewrite thread_exit_eq, Hc, I6, Hst, Hnext.
  - intros w. rewrite thread_sleep_eq, Hc, I6, Hst, Hnext.
    apply Z.eqb_neq in Hni. by rewrite Hni.
  - exists (yielded s). split; [by apply thread_yield_total|].
    rewrite next_of_yielded. unfold next_of, yield_enqueued.
    apply Z.eqb_neq in Hni. rewrite Hni. cbn [negb]. sred. by rewrite Hr.
Qed.

Lemma X11_witness :
  (reachable ex_main ∧ in_external_intr ex_main = false
   ∧ ready_list ex_main = [] ∧ idle_thread ex_main = NULL)
  ∧ thread_exit ex_main = Panic "is_thread (next)".
Proof.
  split; [by split_and!; try apply ex_main_reachable|].
  by destruct (X11_nothing_to_run ex_main ex_main_reachable eq_refl eq_refl
                 eq_refl) as (_ & He & _).
Defined.

(** ** What identifies a thread *)







(** A field of [struct thread] that the status, the priority and the wake
    tick do not overlap: the tid, the name, the saved frame, the canary. *)
Section identity.
Context {A : Type} (field : thread → A).
Hypothesis field_status : ∀ st th, field (set_status st th) = field th.
Hypothesis field_priority : ∀ p th, field (set_priority p th) = field th.
Hypothesis field_wakeup : ∀ w th, field (set_wakeup_tick w th) = field th.

Lemma field_switched s u :
  field (thread_at (switched s) u) = field (thread_at s u).
Proof using field_status.
  rewrite mem_switched. by rewrite (page_write_field field).
Qed.

Lemma field_rescheduled st s u :
  field (thread_at (rescheduled st s) u) = field (thread_at s u).
Proof using field_status.
  unfold rescheduled. rewrite field_switched. unfold drained. sred.
  by rewrite (page_write_field field).
Qed.

Lemma field_yielded s u :
  field (thread_at (yielded s) u) = field (thread_at s u).
Proof using field_status.
  unfold yielded. sred. rewrite field_rescheduled.
  unfold yield_enqueued. by destruct (negb _).
Qed.





End identity.





Lemma is_thread_b_magic m u :
  is_thread_b m u = true ↔ u ≠ NULL ∧ magic (page m u) = THREAD_MAGIC.
Proof.
  unfold is_thread_b. rewrite andb_true_iff, negb_true_iff.
  by rewrite Z.eqb_neq, Z.eqb_eq.
Qed.





(** ** [thread_tid] and [thread_name] *)

Definition thread_tid : M tid_t :=
  cur <- thread_current ;;
  load cur tid.

Definition thread_name : M string :=
  cur <- thread_current ;;
  load cur name.

Lemma thread_tid_eq s :
  thread_tid s =
    if is_thread_b (mem s) (running s) then
      if bool_decide (stat s (running s) = THREAD_RUNNING)
      then Ok (tid (thread_at s (running s)), s)
      else Panic "t->status == THREAD_RUNNING"
    else Panic "is_thread (t)".
Proof.
  unfold thread_tid. unfold bind. rewrite thread_current_eq.
  destruct (is_thread_b (mem s) (running s)); [|done].
  by destruct (bool_decide _).
Qed.

Lemma thread_name_eq s :
  thread_name s =
    if is_thread_b (mem s) (running s) then
      if bool_decide (stat s (running s) = THREAD_RUNNING)
      then Ok (name (thread_at s (running s)), s)
      else Panic "t->status == THREAD_RUNNING"
    else Panic "is_thread (t)".
Proof.
  unfold thread_name. unfold bind. rewrite thread_current_eq.
  destruct (is_thread_b (mem s) (running s)); [|done].
  by destruct (bool_decide _).
Qed.

(** X14: a [thread_create] whose priority is strictly above that of the
    caller and of every ready thread returns with the new thread running:
    the caller was preempted inside the call and is ready, and the new
    thread's [thread_tid] is the value that [thread_create] returns, its
    [thread_name] the name cut to 15 characters. *)
Theorem X14_created_thread_preempts nm p function aux s t ps :
  reachable s → function ≠ NULL → PRI_MIN ≤ p ≤ PRI_MAX →
  free_pages s = t :: ps → t ≠ NULL → in_external_intr s = false →
  prio s (running s) < p → Forall (λ e, prio s e < p) (ready_list s) →
  ∃ s', thread_create nm p function aux s = Ok (next_tid s, s')
    ∧ running s' = t
    ∧ thread_tid s' = Ok (next_tid s, s')
    ∧ thread_name s' = Ok (strlcpy16 nm, s')
    ∧ stat s' (running s) = THREAD_READY
    ∧ (running s ≠ idle_thread s → running s ∈ ready_list s').
Proof.
  intros Hreach Hf Hp Hfp Ht Hc Hmine Hall.
  pose proof (reachable_Inv s Hreach) as HI.
  pose proof (alloc_fresh s t ps HI Hfp) as Hfresh.
  set (s_rdy := spawned t nm p function aux s).
  assert (HI' : Inv s_rdy) by (by eapply spawned_Inv).
  assert (Hne : t ≠ running s) by (clear -Hfresh; set_solver).
  assert (Hpt : page (mem s_rdy) t
                = set_status THREAD_READY
                    (spawned_thread t nm p function aux (next_tid s))).
  { unfold s_rdy, spawned, unblocked, set_up. sred.
    by rewrite !page_insert_eq. }
  assert (Hprun : prio s_rdy (running s) = prio s (running s)).
  { unfold s_rdy, spawned, unblocked, set_up. sred.
    by rewrite !page_insert_ne. }
  assert (Hrl : ready_list s_rdy = t :: ready_list s).
  { unfold s_rdy, spawned, unblocked, set_up. sred.
    apply insert_prio_head; [done|].
    destruct (ready_list s) as [|e l] eqn:Hr; [done|].
    apply Forall_cons in Hall as [Hall _].
    destruct HI as [_ _ _ I4 _ _ _ _]. rewrite Hr in I4.
    apply Forall_cons in I4 as [[I4 _] _].
    split; [by eapply is_thread_b_nonnull|].
    rewrite page_insert_eq, page_insert_ne; [done|].
    clear -Hfresh. set_solver. }
  assert (Hq : ready_list (yield_enqueued s_rdy)
               = t :: if running s =? idle_thread s then ready_list s
                      else insert_ordered (thread_prio_cmp (mem s_rdy))
                             (running s) (ready_list s)).
  { unfold yield_enqueued.
    change (running s_rdy) with (running s).
    change (idle_thread s_rdy) with (idle_thread s).
    destruct (running s =? idle_thread s); cbn [negb]; sred; [done|].
    rewrite Hrl. apply insert_prio_behind. rewrite Hprun, Hpt. cbn. lia. }
  assert (Hnext : next_of (yield_enqueued s_rdy) = t)
    by (unfold next_of; by rewrite Hq).
  assert (Hrange : (PRI_MIN <=? p) && (p <=? PRI_MAX) = true).
  { apply andb_true_intro. split; apply Z.leb_le; lia. }
  assert (Hrun : thread_create nm p function aux s
                 = Ok (next_tid s, yielded s_rdy)).
  { rewrite thread_create_eq, Hfp.
    apply Z.eqb_neq in Ht as ->. apply Z.eqb_neq in Hf as ->.
    cbn [negb]. rewrite Hrange. fold s_rdy.
    rewrite create_finish_run by done.
    change (running s_rdy) with (running s). rewrite Hprun.
    apply Z.ltb_lt in Hmine. by rewrite Hmine. }
  assert (HI2 : Inv (yielded s_rdy)).
  { eapply step_Inv; [exact HI|]. eapply step_create. exact Hrun. }
  assert (Hr2 : running (yielded s_rdy) = t)
    by (by rewrite next_of_yielded).
  destruct HI2 as [_ _ _ _ _ [I6 I6'] _ _]. rewrite Hr2 in I6, I6'.
  exists (yielded s_rdy). split_and!.
  - done.
  - done.
  - rewrite thread_tid_eq, Hr2, I6, bool_decide_eq_true_2 by done.
    by rewrite (field_yielded tid), Hpt.
  - rewrite thread_name_eq, Hr2, I6, bool_decide_eq_true_2 by done.
    by rewrite (field_yielded name), Hpt.
  - rewrite mem_yielded, Hnext. change (running s_rdy) with (running s).
    rewrite page_insert_ne by done. by rewrite page_insert_eq.
  - intros Hni. rewrite ready_list_yielded, Hq. apply Z.eqb_neq in Hni.
    rewrite Hni. cbn [tail]. apply insert_ordered_elem_of. by left.
Qed.

Lemma X14_witness :
  (reachable ex_started ∧ 1 ≠ NULL ∧ PRI_MIN ≤ 40 ≤ PRI_MAX
   ∧ free_pages ex_started = [12288; 16384; 20480] ∧ 12288 ≠ NULL
   ∧ in_external_intr ex_started = false
   ∧ prio ex_started (running ex_started) < 40
   ∧ Forall (λ e, prio ex_started e < 40) (ready_list ex_started))
  ∧ ∃ s', thread_create "hi" 40 1 0 ex_started = Ok (3, s')
          ∧ running s' = 12288 ∧ thread_tid s' = Ok (3, s').
Proof.
  assert (H1 : PRI_MIN ≤ 40 ≤ PRI_MAX) by (by vm_compute).
  assert (H2 : free_pages ex_started = [12288; 16384; 20480])
    by (by vm_compute).
  assert (H3 : prio ex_started (running ex_started) < 40) by (by vm_compute).
  assert (H4 : Forall (λ e, prio ex_started e < 40) (ready_list ex_started))
    by (replace (ready_list ex_started) with (@nil Z) by (by vm_compute);
        constructor).
  assert (H5 : (1:Z) ≠ NULL) by done.
  assert (H6 : (12288:Z) ≠ NULL) by done.
  split; [by split_and!; try apply ex_started_reachable|].
  destruct (X14_created_thread_preempts "hi" 40 1 0 ex_started 12288
              [16384; 20480] ex_started_reachable H5 H1 H2 H6 eq_refl H3 H4)
    as (s' & Hrun & Hr & Htid & _).
  exists s'. split; [exact Hrun|]. split; [exact Hr|exact Htid].
Defined.

(** ** The comparison functions *)

(** X15: the two comparison functions handed to the ordered insertion are
    strict orders on the thread pages: irreflexive and transitive (hence
    asymmetric).  Two threads tie under [thread_wakeup_cmp] exactly when
    both their wake ticks and their priorities are equal, and two threads
    (not NULL) tie under [thread_prio_cmp] exactly when their priorities are
    equal. *)
Theorem X15_comparisons_are_strict_orders m :
  (∀ a, thread_prio_cmp m a a = false)
  ∧ (∀ a b c, thread_prio_cmp m a b = true → thread_prio_cmp m b c = true
              → thread_prio_cmp m a c = true)
  ∧ (∀ a b, a ≠ NULL → b ≠ NULL →
       (thread_prio_cmp m a b = false ∧ thread_prio_cmp m b a = false
        ↔ priority (page m a) = priority (page m b)))
  ∧ (∀ a, thread_wakeup_cmp m a a = false)
  ∧ (∀ a b c, thread_wakeup_cmp m a b = true → thread_wakeup_cmp m b c = true
              → thread_wakeup_cmp m a c = true)
  ∧ (∀ a b, thread_wakeup_cmp m a b = false ∧ thread_wakeup_cmp m b a = false
            ↔ wakeup_tick (page m a) = wakeup_tick (page m b)
              ∧ priority (page m a) = priority (page m b)).
Proof.
  assert (Hp : ∀ a b, thread_prio_cmp m a b = true
                      ↔ a ≠ NULL ∧ b ≠ NULL
                        ∧ priority (page m b) < priority (page m a)).
  { intros a b. unfold thread_prio_cmp. cbn zeta.
    destruct (a =? NULL) eqn:Ha, (b =? NULL) eqn:Hb; cbn [orb];
      rewrite ?Z.eqb_eq, ?Z.eqb_neq in *; rewrite ?Z.ltb_lt;
      split; try done; try tauto; intros (? & ? & ?); done. }
  assert (Hw : ∀ a b, thread_wakeup_cmp m a b = true
                      ↔ wakeup_tick (page m a) < wakeup_tick (page m b)
                        ∨ (wakeup_tick (page m a) = wakeup_tick (page m b)
                           ∧ priority (page m b) < priority (page m a))).
  { intros a b. unfold thread_wakeup_cmp. cbn zeta.
    destruct (wakeup_tick (page m a) =? wakeup_tick (page m b)) eqn:He;
      cbn [negb]; rewrite ?Z.eqb_eq, ?Z.eqb_neq in *; rewrite Z.ltb_lt; lia. }
  assert (Hpf : ∀ a b, thread_prio_cmp m a b = false
                       ↔ ¬ (a ≠ NULL ∧ b ≠ NULL
                            ∧ priority (page m b) < priority (page m a))).
  { intros a b. rewrite <- Hp. by destruct (thread_prio_cmp m a b). }
  assert (Hwf : ∀ a b, thread_wakeup_cmp m a b = false
                  ↔ ¬ (wakeup_tick (page m a) < wakeup_tick (page m b)
                       ∨ (wakeup_tick (page m a) = wakeup_tick (page m b)
                          ∧ priority (page m b) < priority (page m a)))).
  { intros a b. rewrite <- Hw. by destruct (thread_wakeup_cmp m a b). }
  split_and!.
  - intros a. apply Hpf. lia.
  - intros a b c. rewrite !Hp. lia.
  - intros a b Ha Hb. rewrite !Hpf. lia.
  - intros a. apply Hwf. lia.
  - intros a b c. rewrite !Hw. lia.
  - intros a b. rewrite !Hwf. lia.
Qed.

(** ** [thread_block] and [thread_unblock] *)

(** X16: a thread other than the idle thread that blocks is, once
    [thread_block] has switched away from it, in none of the scheduler's
    lists, so nothing will run it; a [thread_unblock] of it by the thread
    that runs next succeeds and puts it back: it is ready, in the ready
    queue, and the unblocking thread is still running. *)
Theorem X16_block_then_unblock s s1 :
  reachable s → running s ≠ idle_thread s →
  thread_block s = Ok (tt, s1) →
  stat s1 (running s) = THREAD_BLOCKED
  ∧ (running s ∉ running s1 :: ready_list s1 ++ sleep_list s1
                   ++ destruction_req s1 ++ free_pages s1)
  ∧ ∃ s2, thread_unblock (running s) s1 = Ok (tt, s2)
      ∧ stat s2 (running s) = THREAD_READY
      ∧ running s ∈ ready_list s2
      ∧ running s2 = running s1
      ∧ reachable s2.
Proof.
  intros Hreach Hni Hb. pose proof (reachable_Inv s Hreach) as HI.
  assert (Hreach1 : reachable s1)
    by (eapply reach_step; [exact Hreach|by apply step_block]).
  pose proof (reachable_next_not_running s HI Hni) as Hnr.
  pose proof HI as [_ _ I3 _ _ [I6 I6'] _ _].
  apply is_thread_b_magic in I6 as [Hrn Hm].
  rewrite thread_block_eq in Hb. inv_ok Hb. apply Ok_inj in Hb as [_ Hs1].
  set (s0 := write_thread (running s) (set_status THREAD_BLOCKED) s) in *.
  assert (Hst : stat s1 (running s) = THREAD_BLOCKED).
  { rewrite <- Hs1, mem_switched. change (next_of s0) with (next_of s).
    rewrite page_insert_ne by done. unfold s0. sred.
    by rewrite page_insert_eq. }
  assert (Hth : is_thread_b (mem s1) (running s) = true).
  { apply is_thread_b_magic. split; [done|].
    rewrite <- Hs1, (field_switched magic) by done. unfold s0. sred.
    by rewrite (page_write_field magic). }
  assert (Hout : running s ∉ running s1 :: ready_list s1 ++ sleep_list s1
                             ++ destruction_req s1 ++ free_pages s1).
  { rewrite <- Hs1, running_switched, ready_list_switched,
      sleep_list_switched, free_pages_switched.
    rewrite destruction_switched_alive.
    2:{ unfold s0. sred. by rewrite page_insert_eq. }
    change (next_of s0) with (next_of s).
    change (ready_list s0) with (ready_list s).
    change (sleep_list s0) with (sleep_list s).
    change (destruction_req s0) with (destruction_req s).
    change (free_pages s0) with (free_pages s).
    apply NoDup_cons in I3 as [I3 _]. unfold owned in I3.
    apply not_elem_of_cons. split; [done|].
    intros Hin. apply I3. clear -Hin.
    destruct (ready_list s); [done|]. cbn [tail] in Hin. set_solver. }
  assert (Hun : thread_unblock (running s) s1
                = Ok (tt, unblocked (running s) s1)).
  { rewrite thread_unblock_eq, Hth. by rewrite bool_decide_eq_true_2. }
  split_and!; [done..|].
  exists (unblocked (running s) s1). split_and!.
  - done.
  - unfold unblocked. sred. by rewrite page_insert_eq.
  - unfold unblocked. sred. apply insert_ordered_elem_of. by left.
  - done.
  - eapply reach_step; [exact Hreach1|].
    eapply step_unblock; [|exact Hun]. done.
Qed.

Lemma X16_witness :
  (reachable ex_a_dead ∧ running ex_a_dead ≠ idle_thread ex_a_dead
   ∧ thread_block ex_a_dead = Ok (tt, ex_b_blocked))
  ∧ ∃ s2, thread_unblock 16384 ex_b_blocked = Ok (tt, s2)
          ∧ 16384 ∈ ready_list s2.
Proof.
  assert (H1 : running ex_a_dead ≠ idle_thread ex_a_dead) by (by vm_compute).
  split; [split_and!; [apply ex_a_dead_reachable|done
                      |apply ex_b_blocked_run]|].
  destruct (X16_block_then_unblock ex_a_dead ex_b_blocked ex_a_dead_reachable
              H1 ex_b_blocked_run) as (_ & _ & s2 & Hun & _ & Hin & _).
  exists s2. split; [exact Hun|exact Hin].
Defined.

(** * devices/timer.c *)

(** [int64_t] arithmetic, written as the two's complement wrap-around of the
    machine. *)
Definition wrap64 (x : Z) : Z := (x + 2 ^ 63) mod 2 ^ 64 - 2 ^ 63.

(** The timer's [static int64_t ticks] on top of the scheduler state, with
    the calls made to the I/O ports and to the interrupt controller.

    Modelled from the spec: the hardware timer and the interrupt controller
    are external collaborators (threads/io.h and threads/interrupt.c are not
    part of the sources at hand); [outb] and [intr_register_ext] are kept as
    the record of the calls made, in order, with the arguments passed. *)
Record machine : Type := {
  ticks : Z;
  ports : list (Z * Z);
  vectors : list (Z * string);
  kern : sched
}.

Definition with_kern (k : sched) (tm : machine) : machine :=
  {| ticks := ticks tm; ports := ports tm; vectors := vectors tm;
     kern := k |}.

Definition T (A : Type) : Type := machine → result (A * machine).

Definition tret {A} (a : A) : T A := λ tm, Ok (a, tm).

Definition tbind {A B} (m : T A) (k : A → T B) : T B :=
  λ tm, match m tm with
        | Ok (a, tm') => k a tm'
        | Panic msg => Panic msg
        | OutOfFuel => OutOfFuel
        end.

Declare Scope timer_scope.
Delimit Scope timer_scope with timer.
Notation "x <- m ;; k" := (tbind m (λ x, k))
  (at level 20, m at level 99, k at level 200, only parsing) : timer_scope.
Notation "m ;; k" := (tbind m (λ _, k))
  (at level 100, k at level 200, only parsing, right associativity)
  : timer_scope.

(** A call into thread.c or interrupt.c from the timer code. *)
Definition on_kernel {A} (m : M A) : T A :=
  λ tm, match m (kern tm) with
        | Ok (a, k) => Ok (a, with_kern k tm)
        | Panic msg => Panic msg
        | OutOfFuel => OutOfFuel
        end.

Definition outb (port data : Z) : T unit :=
  λ tm, Ok (tt, {| ticks := ticks tm; ports := ports tm ++ [(port, data)];
                   vectors := vectors tm; kern := kern tm |}).

Definition intr_register_ext (vec : Z) (nm : string) : T unit :=
  λ tm, Ok (tt, {| ticks := ticks tm; ports := ports tm;
                   vectors := vectors tm ++ [(vec, nm)]; kern := kern tm |}).

(** [timer_init]; [TIMER_FREQ] is the macro of devices/timer.h, which the
    two [#if] at the head of timer.c keep within 19 and 1000.  [count] is a
    [uint16_t]. *)
Definition timer_init (TIMER_FREQ : Z) : T unit :=
  (let count := ((1193180 + TIMER_FREQ ÷ 2) ÷ TIMER_FREQ) mod 2 ^ 16 in
   outb 0x43 0x34 ;;
   outb 0x40 (Z.land count 0xff) ;;
   outb 0x40 (Z.shiftr count 8) ;;
   intr_register_ext 0x20 "8254 Timer")%timer.

Definition timer_ticks : T Z :=
  (old_level <- on_kernel intr_disable ;;
   t <- (λ tm, Ok (ticks tm, tm)) ;;
   _ <- on_kernel (intr_set_level old_level) ;;
   tret t)%timer.

Definition timer_elapsed (then_ : Z) : T Z :=
  (t <- timer_ticks ;; tret (wrap64 (t - then_)))%timer.


(** The [while] loop of [timer_sleep], with a bound on the number of
    iterations. *)
Fixpoint timer_sleep_loop (fuel : nat) (start nticks : Z) : T unit :=
  match fuel with
  | O => λ _, OutOfFuel
  | S fuel' =>
      (e <- timer_elapsed start ;;
       if e <? nticks
       then on_kernel thread_yield ;; timer_sleep_loop fuel' start nticks
       else tret tt)%timer
  end.

Definition timer_sleep (fuel : nat) (nticks : Z) : T unit :=
  (start <- timer_ticks ;;
   l <- on_kernel intr_get_level ;;
   (if bool_decide (l = INTR_ON) then tret tt
    else λ _, Panic "intr_get_level () == INTR_ON") ;;
   timer_sleep_loop fuel start nticks)%timer.


Lemma with_level_back s : with_level (level s) (with_level INTR_OFF s) = s.
Proof. by destruct s. Qed.

Lemma with_kern_same tm : with_kern (kern tm) tm = tm.
Proof. by destruct tm. Qed.

Lemma timer_ticks_eq tm : timer_ticks tm = Ok (ticks tm, tm).
Proof.
  unfold timer_ticks, tbind, on_kernel, tret. mred.
  cbn [kern with_kern ticks]. unfold with_kern. cbn [kern ticks ports vectors].
  rewrite with_level_back. by destruct tm.
Qed.

Lemma timer_elapsed_eq then_ tm :
  timer_elapsed then_ tm = Ok (wrap64 (ticks tm - then_), tm).
Proof. unfold timer_elapsed, tbind. by rewrite timer_ticks_eq. Qed.






(** The machine in which "a" has just been given the processor. *)
Definition ex_machine : machine :=
  {| ticks := 0; ports := []; vectors := []; kern := ex_a_runs |}.


(** X18: for a [TIMER_FREQ] that timer.c accepts (19 to 1000) the divisor
    that [timer_init] programs fits the 16-bit counter: the two bytes it
    writes to port 0x40, low byte first, after the control word 0x34 on port
    0x43, are bytes and put together are the input frequency 1193180 divided
    by [TIMER_FREQ] and rounded to the nearest; the handler is registered on
    vector 0x20.  For a frequency below 19 the divisor would not fit, which
    is what the [#error] guards against. *)
Theorem X18_timer_init_divisor F tm :
  0 < F ≤ 1000 →
  let count := (1193180 + F ÷ 2) ÷ F in
  (19 ≤ F →
   ∃ tm' lsb msb, timer_init F tm = Ok (tt, tm')
     ∧ ports tm' = ports tm ++ [(0x43, 0x34); (0x40, lsb); (0x40, msb)]
     ∧ vectors tm' = vectors tm ++ [(0x20, "8254 Timer"%string)]
     ∧ ticks tm' = ticks tm ∧ kern tm' = kern tm
     ∧ 0 ≤ lsb < 256 ∧ 0 ≤ msb < 256
     ∧ lsb + 256 * msb = count
     ∧ 2 * Z.abs (1193180 - count * F) ≤ F)
  ∧ (F < 19 → 2 ^ 16 ≤ count).
Proof.
  intros HF count.
  assert (Hq : count = (1193180 + F / 2) / F).
  { unfold count. rewrite (Z.quot_div_nonneg F 2) by lia.
    rewrite Z.quot_div_nonneg; [done| |lia].
    pose proof (Z.div_pos F 2). lia. }
  assert (Hlo : F * count ≤ 1193180 + F / 2 < F * count + F).
  { rewrite Hq. pose proof (Z.div_mod (1193180 + F / 2) F).
    pose proof (Z.mod_pos_bound (1193180 + F / 2) F). lia. }
  assert (Hhalf : F - 1 ≤ 2 * (F / 2) ≤ F).
  { pose proof (Z.div_mod F 2). pose proof (Z.mod_pos_bound F 2). lia. }
  assert (Hdef : count = (1193180 + F ÷ 2) ÷ F) by done.
  clearbody count. clear Hq. split.
  - intros H19.
    assert (Hc : 0 ≤ count < 2 ^ 16).
    { split.
      - destruct (Z.lt_ge_cases count 0) as [Hneg|]; [|done].
        assert (F * count ≤ F * (-1))
          by (apply Z.mul_le_mono_nonneg_l; lia).
        lia.
      - destruct (Z.lt_ge_cases count (2 ^ 16)) as [|Hbig]; [done|].
        assert (F * 2 ^ 16 ≤ F * count)
          by (apply Z.mul_le_mono_nonneg_l; lia).
        lia. }
    exists {| ticks := ticks tm;
              ports := ports tm ++ [(0x43, 0x34);
                                    (0x40, Z.land count 0xff);
                                    (0x40, Z.shiftr count 8)];
              vectors := vectors tm ++ [(0x20, "8254 Timer"%string)];
              kern := kern tm |}, (Z.land count 0xff), (Z.shiftr count 8).
    assert (Hland : Z.land count 0xff = count mod 256).
    { change 0xff with (Z.ones 8). by rewrite Z.land_ones. }
    assert (Hshift : Z.shiftr count 8 = count / 256).
    { by rewrite Z.shiftr_div_pow2. }
    split_and!; try done.
    + unfold timer_init, tbind, outb, intr_register_ext.
      cbn [ticks ports vectors kern]. rewrite <- Hdef.
      rewrite (Z.mod_small count) by lia.
      by rewrite <- !(assoc_L (++)).
    + rewrite Hland. apply Z.mod_pos_bound. lia.
    + rewrite Hland. apply Z.mod_pos_bound. lia.
    + rewrite Hshift. apply Z.div_pos; lia.
    + rewrite Hshift. apply Z.div_lt_upper_bound; lia.
    + rewrite Hland, Hshift. pose proof (Z.div_mod count 256). lia.
    + lia.
  - intros H19.
    destruct (Z.lt_ge_cases count (2 ^ 16)) as [Hsmall|]; [|done].
    assert (F * count ≤ F * (2 ^ 16 - 1))
      by (apply Z.mul_le_mono_nonneg_l; lia).
    lia.
Qed.

Lemma X18_witness :
  0 < 100 ≤ 1000
  ∧ ∃ tm', timer_init 100 ex_machine = Ok (tt, tm')
           ∧ ports tm' = [(0x43, 0x34); (0x40, 0x9c); (0x40, 0x2e)].
Proof.
  assert (HF : 0 < 100 ≤ 1000) by lia.
  split; [exact HF|].
  destruct (proj1 (X18_timer_init_divisor 100 ex_machine HF))
    as (tm' & lsb & msb & Hrun & _); [lia|].
  exists tm'. split; [exact Hrun|].
  vm_compute in Hrun. injection Hrun as <-. vm_compute. reflexivity.
Defined.

(** ** [timer_sleep] *)

Lemma timer_sleep_eq fuel n tm :
  timer_sleep fuel n tm =
    if bool_decide (level (kern tm) = INTR_ON)
    then timer_sleep_loop fuel (ticks tm) n tm
    else Panic "intr_get_level () == INTR_ON".
Proof.
  unfold timer_sleep. unfold tbind at 1. rewrite timer_ticks_eq.
  unfold tbind, on_kernel, intr_get_level, gets. rewrite with_kern_same.
  by destruct (bool_decide _).
Qed.

Lemma wrap64_0 : wrap64 0 = 0.
Proof. done. Qed.

(** X19: [timer_sleep] panics when interrupts are off.  With interrupts on,
    a call for no ticks or fewer returns at once in the state it was called
    in, without a yield; a call for a positive number of ticks, in a
    reachable scheduler state and outside interrupt context, keeps yielding
    and never returns as long as no timer interrupt advances the tick
    count: it waits by [thread_yield], not by [thread_sleep], and fails no
    assertion on the way. *)
Theorem X19_timer_sleep_busy_waits fuel n tm :
  (level (kern tm) = INTR_OFF →
   timer_sleep fuel n tm = Panic "intr_get_level () == INTR_ON")
  ∧ (level (kern tm) = INTR_ON → n ≤ 0 →
     timer_sleep (S fuel) n tm = Ok (tt, tm))
  ∧ (level (kern tm) = INTR_ON → 0 < n →
     reachable (kern tm) → in_external_intr (kern tm) = false →
     timer_sleep fuel n tm = OutOfFuel).
Proof.
  split_and!.
  - intros Hl. rewrite timer_sleep_eq, Hl. done.
  - intros Hl Hn. rewrite timer_sleep_eq, Hl.
    rewrite bool_decide_eq_true_2 by done.
    cbn [timer_sleep_loop]. unfold tbind at 1. rewrite timer_elapsed_eq.
    rewrite Z.sub_diag, wrap64_0.
    apply Z.ltb_ge in Hn. by rewrite Hn.
  - intros Hl Hn Hreach Hc. rewrite timer_sleep_eq, Hl.
    rewrite bool_decide_eq_true_2 by done.
    clear Hl. remember (ticks tm) as start eqn:Hstart.
    revert tm Hstart Hreach Hc.
    induction fuel as [|fuel IH]; intros tm Hstart Hreach Hc; [done|].
    cbn [timer_sleep_loop]. unfold tbind at 1. rewrite timer_elapsed_eq.
    rewrite <- Hstart, Z.sub_diag, wrap64_0.
    apply Z.ltb_lt in Hn as Hn'. rewrite Hn'.
    unfold tbind at 1, on_kernel at 1.
    rewrite thread_yield_total by (by apply reachable_Inv || done).
    apply IH.
    + done.
    + cbn [kern with_kern]. eapply reach_step; [exact Hreach|].
      apply step_yield. apply thread_yield_total; [|done].
      by apply reachable_Inv.
    + cbn [kern with_kern]. unfold yielded, rescheduled. sred.
      unfold switched. destruct (_ =? _); [|destruct (_ && _ && _)];
        sred; unfold drained, yield_enqueued;
        by destruct (negb (running (kern tm) =? idle_thread (kern tm))).
Qed.

Lemma X19_witness :
  (level (kern ex_machine) = INTR_ON ∧ 0 < 3
   ∧ reachable (kern ex_machine) ∧ in_external_intr (kern ex_machine) = false)
  ∧ timer_sleep 5 3 ex_machine = OutOfFuel.
Proof.
  assert (Hl : level (kern ex_machine) = INTR_ON) by (by vm_compute).
  assert (Hn : 0 < 3) by lia.
  assert (Hc : in_external_intr (kern ex_machine) = false) by (by vm_compute).
  split; [split_and!; [exact Hl|exact Hn|apply ex_a_runs_reachable|exact Hc]|].
  exact (proj2 (proj2 (X19_timer_sleep_busy_waits 5 3 ex_machine))
           Hl Hn ex_a_runs_reachable Hc).
Defined.
